(** * OpenGlass: chunk reassembly, photo window and agent session

    A shallow embedding of the companion application's core logic:

    - [Reassembler]: the closure [onChunk] of [usePhotos]
      (sources/app/DeviceView.tsx), which rebuilds a photo from the
      notification packets of the camera;
    - [PhotoWindow]: the state update [setPhotos (p => [...p.slice(-9), rotated])]
      of the same hook;
    - [Agent]: the class [Agent] (sources/agent/Agent.ts), its configuration
      check and its [answer] operation;
    - [OpenAI]: [answerQuestionWithImages] (sources/modules/openai.ts);
    - [Listener], [View]: the notification handler, the job of the
      scheduler and the answer area of [DeviceView];
    - [ModelSelector]: the table of sources/app/components/ModelSelector.tsx;
    - [Earlier]: the agent without model selection (unnamed/part_000).

    Conventions.  A [Uint8Array] is a [list byte].  A JavaScript string is a
    [string], each character standing for one code unit below 256.  Sequence
    ids are JavaScript numbers holding integers; they are modelled in [Z]
    (the code only compares them and adds one).  [undefined] in an optional
    field is [None]. *)

From Stdlib Require Import ZArith List Bool String Ascii Lia DecimalString.
From Stdlib Require Import Strings.Byte.
Import ListNotations.

Local Open Scope Z_scope.

Definition bytes := list byte.

(* ------------------------------------------------------------------ *)
(** ** The chunk reassembler *)

Module Reassembler.

(** The two variables captured by [onChunk]:
    [let previousChunk = -1; let buffer = new Uint8Array(0)]. *)
Record State := mkState { previousChunk : Z; buffer : bytes }.

Definition initial : State := {| previousChunk := -1; buffer := [] |}.

(** The state every discontinuity resets to. *)
Definition dropped : State := {| previousChunk := -1; buffer := [] |}.

(** What the branching part of [onChunk] does: it either leaves through a
    [return] (possibly after handing the buffer to [rotateImage]), or falls
    through to the append at the end of the function. *)
Inductive Flow :=
| Return (st : State) (photo : option bytes)
| Append (st : State).

Definition branch (st : State) (id : option Z) : Flow :=
  if previousChunk st =? -1 then
    match id with
    | None => Return st None
    | Some i =>
        if i =? 0 then Append {| previousChunk := 0; buffer := [] |}
        else Return st None
    end
  else
    match id with
    | None =>
        Return {| previousChunk := -1; buffer := buffer st |}
               (if (Z.of_nat (List.length (buffer st)) =? 0) then None
                else Some (buffer st))
    | Some i =>
        if negb (i =? previousChunk st + 1) then
          Return {| previousChunk := -1; buffer := [] |} None
        else Append {| previousChunk := i; buffer := buffer st |}
    end.

(** [onChunk(id, data)].  The second component is the buffer passed to
    [rotateImage], that is, the reassembled photo, when there is one. *)
Definition onChunk (st : State) (id : option Z) (data : bytes)
  : State * option bytes :=
  match branch st id with
  | Return st' photo => (st', photo)
  | Append st' =>
      ({| previousChunk := previousChunk st'; buffer := buffer st' ++ data |},
       None)
  end.

(** A notification record: the sequence id ([None] is the END marker) and
    the payload. *)
Definition Chunk : Type := option Z * bytes.

Definition emitted (photo : option bytes) : list bytes :=
  match photo with Some b => [b] | None => [] end.

(** The listener calls [onChunk] once per notification, in order; [feed]
    collects the photos that come out. *)
Fixpoint feed (st : State) (cs : list Chunk) : State * list bytes :=
  match cs with
  | [] => (st, [])
  | (id, data) :: cs' =>
      let (st1, photo) := onChunk st id data in
      let (st2, photos) := feed st1 cs' in
      (st2, emitted photo ++ photos)
  end.

(** Data records numbered consecutively from [from]. *)
Fixpoint numbered (from : Z) (payloads : list bytes) : list Chunk :=
  match payloads with
  | [] => []
  | d :: ds => (Some from, d) :: numbered (from + 1) ds
  end.

(** A well-formed transfer: START (id 0) with payload [d0], data records
    1, 2, ... with payloads [ds], then END.  [e] is the payload that comes
    with END (the listener passes an empty array; [onChunk] ignores it). *)
Definition transfer (d0 : bytes) (ds : list bytes) (e : bytes) : list Chunk :=
  (Some 0, d0) :: numbered 1 ds ++ [(None, e)].

Definition isStart (c : Chunk) : bool :=
  match fst c with Some i => i =? 0 | None => false end.

End Reassembler.

(* ------------------------------------------------------------------ *)
(** ** The photo window *)

Module PhotoWindow.

(** [Array.prototype.slice(start)] with the end left out: a negative
    [start] counts from the end, and the result is clamped to the array. *)
Definition slice {A : Type} (start : Z) (l : list A) : list A :=
  let len := Z.of_nat (List.length l) in
  let k := if start <? 0 then Z.max (len + start) 0 else Z.min start len in
  skipn (Z.to_nat k) l.

(** The updater given to [setPhotos]: [[...p.slice(-9), rotated]]. *)
Definition push {A : Type} (p : list A) (rotated : A) : list A :=
  slice (-9) p ++ [rotated].

(** The window after the photos [xs] arrived, starting from
    [useState([])]. *)
Definition window {A : Type} (xs : list A) : list A :=
  fold_left push xs [].

End PhotoWindow.

(* ------------------------------------------------------------------ *)
(** ** JavaScript string helpers used by the agent *)

Module Js.

Local Open Scope string_scope.

(** [s.includes(sub)]. *)
Fixpoint includes (s sub : string) : bool :=
  String.prefix sub s
  || match s with
     | EmptyString => false
     | String _ s' => includes s' sub
     end.

(** White space and line terminators below code unit 256, as stripped by
    [String.prototype.trim]: TAB, LF, VT, FF, CR, SP and NBSP.  The other
    characters that [trim] strips (U+1680, U+2000 to U+200A, U+2028, U+2029,
    U+202F, U+205F, U+3000 and U+FEFF) lie above 255 and do not occur in the
    strings of this model. *)
Definition isWhiteSpace (c : ascii) : bool :=
  let n := nat_of_ascii c in
  (Nat.leb 9 n && Nat.leb n 13) || Nat.eqb n 32 || Nat.eqb n 160.

Fixpoint trimStart (s : string) : string :=
  match s with
  | EmptyString => EmptyString
  | String c s' => if isWhiteSpace c then trimStart s' else s
  end.

Fixpoint trimEnd (s : string) : string :=
  match s with
  | EmptyString => EmptyString
  | String c s' =>
      match trimEnd s' with
      | EmptyString => if isWhiteSpace c then EmptyString else String c EmptyString
      | t => String c t
      end
  end.

(** [s.trim()]. *)
Definition trim (s : string) : string := trimEnd (trimStart s).

(** A number inside a template literal, for the naturals the agent prints. *)
Definition ofNat (n : nat) : string := NilZero.string_of_uint (Nat.to_uint n).

Definition LF : string := String (ascii_of_nat 10) EmptyString.

(** [xs.join(sep)]. *)
Definition join (sep : string) (xs : list string) : string :=
  String.concat sep xs.

End Js.

(* ------------------------------------------------------------------ *)
(** ** Promises and thrown values *)

(** A value caught by [catch (error)]: an instance of [Error] with its
    message, or anything else. *)
Inductive Thrown :=
| JsError (message : string)
| NotAnError.

(** How an awaited promise settles. *)
Inductive Completion :=
| Resolved (value : string)
| Rejected (reason : Thrown).

(* ------------------------------------------------------------------ *)
(** ** sources/modules/openai.ts: [answerQuestionWithImages] *)

Module OpenAI.

Local Open Scope string_scope.

(** What [await axios.post(...)] gives: a response, read through
    [response.data.choices?.[0]?.message?.content], or a failure, which is
    an axios error (with [error.response?.status]) or something else. *)
Inductive AxiosResult :=
| Response (content : option string)
| AxiosError (status : option Z)
| OtherFailure.

(** The [catch] block of [answerQuestionWithImages]: every failure is
    rethrown as an [Error] with one of four messages. *)
Definition rethrow (isAxiosError : bool) (status : option Z) : Completion :=
  if isAxiosError then
    match status with
    | Some 401%Z =>
        Rejected (JsError "Invalid OpenAI API key. Please check your .env file.")
    | Some 429%Z =>
        Rejected (JsError "OpenAI rate limit exceeded. Please try again later.")
    | Some 402%Z =>
        Rejected (JsError "OpenAI billing issue. Please check your account credits.")
    | _ =>
        Rejected (JsError "Failed to answer question with OpenAI Vision. Please try again.")
    end
  else
    Rejected (JsError "Failed to answer question with OpenAI Vision. Please try again.").

(** [answerQuestionWithImages(question, images)], given what the request
    settles to.  A response without content throws inside the [try], and
    that error is caught by the function's own [catch]. *)
Definition answerQuestionWithImages (post : AxiosResult) : Completion :=
  match post with
  | Response (Some content) =>
      if String.eqb content "" then rethrow false None else Resolved content
  | Response None => rethrow false None
  | AxiosError status => rethrow true status
  | OtherFailure => rethrow false None
  end.

End OpenAI.

(* ------------------------------------------------------------------ *)
(** ** sources/agent/Agent.ts *)

(** [type AIModel = 'openai-vision' | 'ollama-moondream' | 'groq-llama'] *)
Inductive AIModel := openai_vision | ollama_moondream | groq_llama.

Module AgentState.

(** [type AgentState] *)
Record t := mk {
  lastDescription : option string;
  answer : option string;
  loading : bool;
  error : option string;
  selectedModel : AIModel
}.

Definition setLastDescription (v : option string) (s : t) : t :=
  mk v (answer s) (loading s) (error s) (selectedModel s).
Definition setAnswer (v : option string) (s : t) : t :=
  mk (lastDescription s) v (loading s) (error s) (selectedModel s).
Definition setLoading (v : bool) (s : t) : t :=
  mk (lastDescription s) (answer s) v (error s) (selectedModel s).
Definition setError (v : option string) (s : t) : t :=
  mk (lastDescription s) (answer s) (loading s) v (selectedModel s).
Definition setSelectedModel (v : AIModel) (s : t) : t :=
  mk (lastDescription s) (answer s) (loading s) (error s) v.

(** [{ loading: false, selectedModel: 'openai-vision' }] *)
Definition initial : t := mk None None false None openai_vision.

Definition isSet (f : option string) : bool :=
  match f with Some _ => true | None => false end.

(** Exactly one of [answer] and [error] is set. *)
Definition exactlyOne (s : t) : bool :=
  xorb (isSet (answer s)) (isSet (error s)).

End AgentState.

Module Agent.

Local Open Scope string_scope.

Definition Photo := bytes.

(** The template literal [${this.#state.selectedModel}]. *)
Definition modelName (m : AIModel) : string :=
  match m with
  | openai_vision => "openai-vision"
  | ollama_moondream => "ollama-moondream"
  | groq_llama => "groq-llama"
  end.

(** The object [keys] of [../keys], which is not part of the sources at
    hand: the two entries the agent reads, either a string or [undefined]. *)
Record Keys := mkKeys { openai : option string; groq : option string }.

(** One message of an [ollamaInference] request. *)
Record Message := mkMessage {
  role : string;
  content : string;
  images : list Photo
}.

(** What the agent does that can be seen from outside. *)
Inductive Event :=
| Notify (copy : AgentState.t)
| StartAudio
| Dispatch (model : AIModel)
| OpenAIRequest (question : string) (images : list Photo)
| OllamaRequest (model : string) (messages : list Message)
| GroqRequest (systemPrompt userPrompt : string).

(** Entering the backend switch, and every call to a backend. *)
Definition isBackend (e : Event) : bool :=
  match e with
  | Notify _ | StartAudio => false
  | Dispatch _ | OpenAIRequest _ _ | OllamaRequest _ _ | GroqRequest _ _ => true
  end.

Definition isDispatch (e : Event) : bool :=
  match e with Dispatch _ => true | _ => false end.

Definition backendCalls (tr : list Event) : list Event := filter isBackend tr.

Definition dispatches (tr : list Event) : nat :=
  List.length (filter isDispatch tr).

(** The snapshots published by [#notify]. *)
Fixpoint snapshots (tr : list Event) : list AgentState.t :=
  match tr with
  | [] => []
  | Notify c :: tr' => c :: snapshots tr'
  | _ :: tr' => snapshots tr'
  end.

(** How the outside world answers during one query: the chat completion
    request of [answerQuestionWithImages], the successive calls of
    [ollamaInference] (numbered in call order) and the call of
    [groqRequest].  The modules [../modules/ollama] and
    [../modules/groq-llama] are not part of the sources at hand. *)
Record World := mkWorld {
  axiosPost : OpenAI.AxiosResult;
  ollamaInference : nat -> Completion;
  groqRequest : Completion
}.

(** The private fields of the class.  The listeners are React state
    setters; calling them is the event [Notify]. *)
Record agent := mkAgent {
  photos : list Photo;
  state : AgentState.t;
  stateCopy : AgentState.t
}.

Definition fresh : agent :=
  {| photos := []; state := AgentState.initial; stateCopy := AgentState.initial |}.

(** *** Methods as state transformers with a trace *)

Definition Eff (A : Type) : Type := agent -> A * agent * list Event.

Definition ret {A : Type} (a : A) : Eff A := fun ag => (a, ag, []).

Definition bind {A B : Type} (m : Eff A) (f : A -> Eff B) : Eff B :=
  fun ag =>
    let '(a, ag1, t1) := m ag in
    let '(b, ag2, t2) := f a ag1 in
    (b, ag2, (t1 ++ t2)%list).

Declare Scope eff_scope.
Delimit Scope eff_scope with eff.
Notation "x <- m ;; k" := (bind m (fun x => k))
  (at level 61, m at next level, right associativity) : eff_scope.
Notation "m ;; k" := (bind m (fun _ => k))
  (at level 61, right associativity) : eff_scope.
Local Open Scope eff_scope.

Definition getState : Eff AgentState.t := fun ag => (state ag, ag, []).

Definition getPhotos : Eff (list Photo) := fun ag => (photos ag, ag, []).

Definition modify (f : AgentState.t -> AgentState.t) : Eff unit :=
  fun ag =>
    (tt, {| photos := photos ag; state := f (state ag); stateCopy := stateCopy ag |}, []).

Definition pushPhoto (p : Photo) : Eff unit :=
  fun ag =>
    (tt, {| photos := (photos ag ++ [p])%list; state := state ag;
            stateCopy := stateCopy ag |}, []).

Definition emit (e : Event) : Eff unit := fun ag => (tt, ag, [e]).

(** [#notify]: [this.#stateCopy = { ...this.#state }], then the listeners. *)
Definition notify : Eff unit :=
  fun ag =>
    (tt, {| photos := photos ag; state := state ag; stateCopy := state ag |},
     [Notify (state ag)]).

Fixpoint forEach {A : Type} (f : A -> Eff unit) (l : list A) : Eff unit :=
  match l with
  | [] => ret tt
  | x :: l' => f x ;; forEach f l'
  end.

(** The body run by [addPhoto] inside the lock. *)
Definition addPhoto (batch : list Photo) : Eff unit :=
  forEach pushPhoto batch ;;
  modify (AgentState.setLastDescription
            (Some ("Received " ++ Js.ofNat (List.length batch) ++ " new photo(s)"))) ;;
  notify.

Definition setModel (model : AIModel) : Eff unit :=
  modify (AgentState.setSelectedModel model) ;;
  notify.

Definition getSelectedModel : Eff AIModel :=
  st <- getState ;; ret (AgentState.selectedModel st).

(** *** [checkModelConfiguration] *)

Record Configuration := mkConfiguration {
  configured : bool;
  errorMessage : option string
}.

(** [!key || key.trim() === ''] *)
Definition missing (key : option string) : bool :=
  match key with
  | None => true
  | Some s => String.eqb s "" || String.eqb (Js.trim s) ""
  end.

Definition checkModelConfiguration (keys : Keys) (st : AgentState.t)
  : Configuration :=
  match AgentState.selectedModel st with
  | openai_vision =>
      if missing (openai keys) then
        {| configured := false;
           errorMessage := Some "OpenAI API key not configured. Please add EXPO_PUBLIC_OPENAI_API_KEY to your .env file." |}
      else {| configured := true; errorMessage := None |}
  | ollama_moondream =>
      {| configured := true; errorMessage := None |}
  | groq_llama =>
      if missing (groq keys) then
        {| configured := false;
           errorMessage := Some "Groq API key not configured. Please add EXPO_PUBLIC_GROQ_API_KEY to your .env file." |}
      else {| configured := true; errorMessage := None |}
  end.

(** *** The backends of [answer] *)

Definition moondream : string := "moondream:1.8b-v2-fp16".

(** One [await ollamaInference({ model, messages })]; [n] is the rank of
    the call within the query. *)
Definition callOllama (w : World) (n : nat) (messages : list Message)
  : Eff Completion :=
  emit (OllamaRequest moondream messages) ;;
  ret (ollamaInference w n).

(** The callback mapped over the photos: its own [try]/[catch] turns a
    failed description into a placeholder. *)
Definition describe (w : World) (index : nat) (photo : Photo) : Eff string :=
  c <- callOllama w (S index)
         [ {| role := "system";
              content := "You are a very advanced model and your task is to describe the image as precisely as possible. Transcribe any text you see.";
              images := [] |};
           {| role := "user"; content := "Describe the scene"; images := [photo] |} ] ;;
  ret (match c with
       | Resolved description =>
           "Image " ++ Js.ofNat (index + 1) ++ ": " ++ description
       | Rejected _ =>
           "Image " ++ Js.ofNat (index + 1) ++ ": Could not analyze"
       end).

(** [l.map((x, index) => f(index, x))] followed by [Promise.all]: the
    callbacks start in index order and none of them rejects. *)
Fixpoint mapIndexed {A B : Type} (f : nat -> A -> Eff B) (index : nat)
    (l : list A) : Eff (list B) :=
  match l with
  | [] => ret []
  | x :: l' =>
      y <- f index x ;;
      ys <- mapIndexed f (S index) l' ;;
      ret (y :: ys)
  end.

(** The [catch] block around the Ollama calls. *)
Definition ollamaError (e : Thrown) : Thrown :=
  match e with
  | JsError message =>
      if Js.includes message "fetch" || Js.includes message "network" then
        JsError "Ollama is not running. Please start Ollama and ensure it's accessible at http://localhost:11434"
      else if Js.includes message "model" then
        JsError "Moondream model not found. Please install it with: ollama pull moondream:1.8b-v2-fp16"
      else JsError ("Ollama error: " ++ message)
  | NotAnError =>
      JsError "Ollama is not accessible. Please check if Ollama is running."
  end.

Definition ollama (w : World) (question : string) : Eff Completion :=
  probe <- callOllama w 0
             [ {| role := "user"; content := "Hello"; images := [] |} ] ;;
  match probe with
  | Rejected e => ret (Rejected (ollamaError e))
  | Resolved _ =>
      ps <- getPhotos ;;
      descriptions <- mapIndexed (describe w) 0 ps ;;
      let combinedDescriptions := Js.join (Js.LF ++ Js.LF) descriptions in
      final <- callOllama w (S (List.length ps))
                 [ {| role := "system";
                      content := "You are a smart AI that needs to read through descriptions of images and answer user's questions. DO NOT mention the images, scenes or descriptions in your answer, just answer the question. DO NOT try to generalize or provide possible scenarios. ONLY use the information in the description of the images to answer the question. BE concise and specific.";
                      images := [] |};
                   {| role := "user";
                      content := "Images:" ++ Js.LF ++ combinedDescriptions
                                 ++ Js.LF ++ Js.LF ++ "Question: " ++ question;
                      images := [] |} ] ;;
      match final with
      | Rejected e => ret (Rejected (ollamaError e))
      | Resolved a => ret (Resolved a)
      end
  end.

(** The [switch (this.#state.selectedModel)] of [answer].  Its [default]
    branch needs a value outside [AIModel] and has no counterpart here. *)
Definition dispatch (w : World) (question : string) : Eff Completion :=
  st <- getState ;;
  emit (Dispatch (AgentState.selectedModel st)) ;;
  match AgentState.selectedModel st with
  | openai_vision =>
      ps <- getPhotos ;;
      emit (OpenAIRequest question ps) ;;
      ret (OpenAI.answerQuestionWithImages (axiosPost w))
  | ollama_moondream => ollama w question
  | groq_llama =>
      ps <- getPhotos ;;
      emit (GroqRequest
              ("You are a smart AI that needs to answer user's questions. The user has taken "
               ++ Js.ofNat (List.length ps)
               ++ " photos but I can only analyze text. Please provide a helpful response based on the question: "
               ++ question)
              "I can see you have photos but I'm currently limited to text analysis. Please describe what you see and I'll help you with your question.") ;;
      ret (groqRequest w)
  end.

(** *** [answer] *)

Definition noPhotos : string :=
  "I don't see any photos yet. Please take some photos first and then ask your question.".

(** [this.#state.answer = a; this.#state.error = undefined;] *)
Definition storeAnswer (a : string) : Eff unit :=
  modify (AgentState.setAnswer (Some a)) ;;
  modify (AgentState.setError None).

(** The body of the [try]: [None] when it runs to its end, [Some e] when
    [e] is thrown. *)
Definition tryBody (w : World) (question : string) : Eff (option Thrown) :=
  ps <- getPhotos ;;
  if Nat.eqb (List.length ps) 0 then
    storeAnswer noPhotos ;; ret None
  else
    c <- dispatch w question ;;
    match c with
    | Resolved a => storeAnswer a ;; ret None
    | Rejected e => ret (Some e)
    end.

(** The message built by the [catch] block. *)
Definition failureMessage (model : AIModel) (e : Thrown) : string :=
  let errorMessage := "Failed to get response from " ++ modelName model ++ ". " in
  match e with
  | JsError message =>
      if Js.includes message "401" || Js.includes message "Invalid" then
        errorMessage ++ "Invalid API key. Please check your configuration."
      else if Js.includes message "429" then
        errorMessage ++ "Rate limit exceeded. Please try again later."
      else if Js.includes message "402" then
        errorMessage ++ "Billing issue. Please check your account credits."
      else if Js.includes message "Ollama" then message
      else if Js.includes message "fetch" || Js.includes message "network" then
        "Network error. Please check your internet connection."
      else errorMessage ++ message
  | NotAnError =>
      errorMessage ++ "Please check your configuration and try again."
  end.

Definition catchBlock (e : Thrown) : Eff unit :=
  st <- getState ;;
  modify (AgentState.setError
            (Some (failureMessage (AgentState.selectedModel st) e))) ;;
  modify (AgentState.setAnswer None).

Definition finallyBlock : Eff unit :=
  modify (AgentState.setLoading false) ;;
  notify.

(** The function passed to [this.#lock.inLock] by [answer]. *)
Definition answerLocked (w : World) (question : string) : Eff unit :=
  r <- tryBody w question ;;
  match r with
  | None => ret tt
  | Some e => catchBlock e
  end ;;
  finallyBlock.

(** How the synchronous part of [answer] ends: with the [return] of the
    configuration branch, with the [return] of the loading branch, or at
    [await this.#lock.inLock(...)]. *)
Inductive Outcome := ConfigurationError | Ignored | Queued.

(** [answer] up to [await this.#lock.inLock(...)]. *)
Definition answerSync (keys : Keys) : Eff Outcome :=
  st <- getState ;;
  let config := checkModelConfiguration keys st in
  if negb (configured config) then
    modify (AgentState.setError (errorMessage config)) ;;
    modify (AgentState.setAnswer None) ;;
    notify ;;
    ret ConfigurationError
  else
    emit StartAudio ;;
    st' <- getState ;;
    if AgentState.loading st' then ret Ignored
    else
      modify (AgentState.setLoading true) ;;
      modify (AgentState.setError None) ;;
      notify ;;
      ret Queued.

(** A call of [answer] whose locked part runs as soon as it is queued,
    nothing else coming in between. *)
Definition answer (keys : Keys) (w : World) (question : string) : Eff Outcome :=
  o <- answerSync keys ;;
  match o with
  | Queued => answerLocked w question ;; ret Queued
  | _ => ret o
  end.

(** Two calls of [answer] back to back: the second call is made while the
    first one still waits for the lock, and the locked parts that were
    queued run afterwards, in call order. *)
Definition answerTwice (keys : Keys) (w1 w2 : World) (q1 q2 : string)
  : Eff (Outcome * Outcome) :=
  o1 <- answerSync keys ;;
  o2 <- answerSync keys ;;
  match o1 with Queued => answerLocked w1 q1 | _ => ret tt end ;;
  match o2 with Queued => answerLocked w2 q2 | _ => ret tt end ;;
  ret (o1, o2).

(** Running a method: the agent afterwards, and the trace. *)
Definition after {A : Type} (m : Eff A) (ag : agent) : agent := snd (fst (m ag)).
Definition trace {A : Type} (m : Eff A) (ag : agent) : list Event := snd (m ag).
Definition result {A : Type} (m : Eff A) (ag : agent) : A := fst (fst (m ag)).

(** A computation that leaves the fields of the agent as they are. *)
Definition readOnly {A : Type} (m : Eff A) : Prop :=
  forall ag, after m ag = ag.

(** The state after the success path, and after the failure path. *)
Definition stored (a : string) (st : AgentState.t) : AgentState.t :=
  AgentState.setError None (AgentState.setAnswer (Some a) st).

Definition failed (e : Thrown) (st : AgentState.t) : AgentState.t :=
  AgentState.setAnswer None
    (AgentState.setError
       (Some (failureMessage (AgentState.selectedModel st) e)) st).

(** The state once the locked part of a dispatched query is over. *)
Definition settled (c : Completion) (st : AgentState.t) : AgentState.t :=
  AgentState.setLoading false
    (match c with
     | Resolved a => stored a st
     | Rejected e => failed e st
     end).

End Agent.

(* ------------------------------------------------------------------ *)
(** ** Concrete sessions used in the examples *)

Module Scenario.

Import Agent.
Local Open Scope string_scope.

(** An OpenAI key is present, the Groq key is not. *)
Definition keys : Keys := {| openai := Some "sk-test"; groq := None |}.

(** Every backend answers. *)
Definition world : World :=
  {| axiosPost := OpenAI.Response (Some "A red bicycle.");
     ollamaInference := fun _ => Resolved "A red bicycle.";
     groqRequest := Resolved "Tell me more." |}.

(** Every backend fails. *)
Definition offline : World :=
  {| axiosPost := OpenAI.AxiosError (Some 401%Z);
     ollamaInference := fun _ => Rejected (JsError "fetch failed");
     groqRequest := Rejected NotAnError |}.

Definition photo : Photo := [xff; xd8; xff; xd9].

(** A new agent on which the local backend was selected. *)
Definition local : agent := after (setModel ollama_moondream) fresh.

(** The same agent once a first question was asked and the first call of
    [answer] waits for the lock. *)
Definition waiting : agent := after (answerSync keys) local.

(** The user then switches to the Groq backend, the first query still
    being in flight. *)
Definition switched : agent := after (setModel groq_llama) waiting.

(** An agent whose first query (no photo yet) has completed. *)
Definition answered : agent := after (answer keys world "what is this?") local.

End Scenario.

(* ------------------------------------------------------------------ *)
(** ** The notification listener of [usePhotos] *)

Module Listener.

Import Reassembler.

(** The value of a byte as a number. *)
Definition toZ (b : byte) : Z := Z.of_N (Byte.to_N b).

(** [array[i]] on a [Uint8Array]: [undefined] past the end. *)
Definition index (array : bytes) (i : nat) : option byte := nth_error array i.

(** [array[i] == 0xff] *)
Definition isFF (b : option byte) : bool :=
  match b with
  | Some b => toZ b =? 255
  | None => false
  end.

(** [onChunk(NaN, data)]: [NaN] is neither [null] nor [0], and it differs
    from [previousChunk + 1]; so it is left aside while idle and drops the
    photo during a transfer. *)
Definition onChunkNaN (st : State) : State * option bytes :=
  if previousChunk st =? -1 then (st, None)
  else ({| previousChunk := -1; buffer := [] |}, None).

(** The handler of ['characteristicvaluechanged'], on the bytes of the
    notification.  With one byte only, [array[1] << 8] is [0]; with no byte,
    [array[0] + 0] is [NaN]. *)
Definition listener (st : State) (array : bytes) : State * option bytes :=
  if isFF (index array 0) && isFF (index array 1) then onChunk st None []
  else
    match index array 0 with
    | None => onChunkNaN st
    | Some b0 =>
        let high :=
          match index array 1 with
          | Some b1 => Z.shiftl (toZ b1) 8
          | None => 0
          end in
        let packetId := toZ b0 + high in
        let packet := PhotoWindow.slice 2 array in
        onChunk st (Some packetId) packet
    end.

(** The listener over the successive notifications. *)
Fixpoint listen (st : State) (arrays : list bytes) : State * list bytes :=
  match arrays with
  | [] => (st, [])
  | array :: arrays' =>
      let (st1, photo) := listener st array in
      let (st2, photos) := listen st1 arrays' in
      (st2, emitted photo ++ photos)
  end.

(** The byte of a number below 256. *)
Definition byteOf (z : Z) : byte :=
  match Byte.of_N (Z.to_N z) with
  | Some b => b
  | None => x00
  end.

(** A notification as the camera sends it: the sequence id on two bytes,
    low byte first, then the payload; the END marker is [0xFF 0xFF]. *)
Definition wire (c : Chunk) : bytes :=
  match fst c with
  | Some id => byteOf (id mod 256) :: byteOf (id / 256) :: snd c
  | None => [xff; xff]
  end.

(** The ids a data packet can carry. *)
Definition inRange (c : Chunk) : bool :=
  match fst c with
  | Some id => (0 <=? id) && (id <? 65535)
  | None => true
  end.

Definition isEnd (c : Chunk) : bool :=
  match fst c with Some _ => false | None => true end.

End Listener.

(* ------------------------------------------------------------------ *)
(** ** Streams of records *)

Module Stream.

Import Reassembler.

(** One when a transfer is in progress, zero when idle. *)
Definition inProgress (st : State) : nat :=
  if previousChunk st =? -1 then 0%nat else 1%nat.

Definition ends (cs : list Chunk) : nat :=
  List.length (filter Listener.isEnd cs).

Definition starts (cs : list Chunk) : nat :=
  List.length (filter isStart cs).

(** A photo cut into chunks: the payload of chunk 0, then the payloads of
    the chunks 1, 2, ...; its records, and its bytes. *)
Definition Cut : Type := bytes * list bytes.

Definition records (c : Cut) : list Chunk := transfer (fst c) (snd c) [].

Definition content (c : Cut) : bytes := fst c ++ List.concat (snd c).

End Stream.

(* ------------------------------------------------------------------ *)
(** ** What [DeviceView] does with the photos and the agent state *)

Module View.

Import Agent.

(** [photos[photos.length - 1]] *)
Definition latestPhoto {A : Type} (photos : list A) : option A :=
  if Nat.eqb (List.length photos) 0 then None
  else nth_error photos (List.length photos - 1).

(** The job given to [InvalidateSync]; [processed] is the counter captured
    by the job and [current] is [processedPhotos.current].  It returns the
    new counter and, when it calls [agent.addPhoto], the photos passed. *)
Definition job (processed : nat) (current : list Photo)
  : nat * option (list Photo) :=
  if Nat.ltb processed (List.length current) then
    (List.length current, Some (PhotoWindow.slice (Z.of_nat processed) current))
  else (processed, None).

(** The photo state, the counter of the job and the agent. *)
Record Session := mkSession {
  window : list Photo;
  processed : nat;
  agentOf : agent
}.

Definition start : Session :=
  {| window := []; processed := 0; agentOf := fresh |}.

(** A photo comes out of [rotateImage] and goes through [setPhotos]; the
    effect on [photos] then stores the window in [processedPhotos.current]. *)
Definition arrive (rotated : Photo) (s : Session) : Session :=
  {| window := PhotoWindow.push (window s) rotated;
     processed := processed s;
     agentOf := agentOf s |}.

(** One run of the job, with its call of [agent.addPhoto]. *)
Definition runJob (s : Session) : Session :=
  match job (processed s) (window s) with
  | (processed', Some unprocessed) =>
      {| window := window s;
         processed := processed';
         agentOf := after (addPhoto unprocessed) (agentOf s) |}
  | (processed', None) =>
      {| window := window s; processed := processed'; agentOf := agentOf s |}
  end.

(** What happens to the session: a photo arrives, or the job runs.  The
    scheduler may run the job once for several arrivals. *)
Inductive Tick :=
| Arrive (rotated : Photo)
| RunJob.

Definition tick (s : Session) (t : Tick) : Session :=
  match t with
  | Arrive rotated => arrive rotated s
  | RunJob => runJob s
  end.

Definition run (ticks : list Tick) (s : Session) : Session :=
  fold_left tick ticks s.

(** The job runs after every arrival. *)
Definition eager (xs : list Photo) : list Tick :=
  flat_map (fun x => [Arrive x; RunJob]) xs.

(** What the job keeps true: the window is within its capacity, the counter
    is at most the capacity, and the agent holds as many photos as the
    counter says. *)
Definition synced (s : Session) : Prop :=
  (List.length (window s) <= 10)%nat
  /\ (processed s <= 10)%nat
  /\ List.length (photos (agentOf s)) = processed s.

(** A string in a condition: [undefined] and the empty string are falsy. *)
Definition truthy (s : option string) : bool :=
  match s with
  | Some s => negb (String.eqb s "")
  | None => false
  end.

(** The four conditional blocks of the answer area. *)
Definition showsLoading (st : AgentState.t) : bool :=
  AgentState.loading st.

Definition showsError (st : AgentState.t) : bool :=
  truthy (AgentState.error st) && negb (AgentState.loading st).

Definition showsAnswer (st : AgentState.t) : bool :=
  truthy (AgentState.answer st) && negb (AgentState.loading st)
  && negb (truthy (AgentState.error st)).

Definition showsPlaceholder (st : AgentState.t) : bool :=
  negb (AgentState.loading st) && negb (truthy (AgentState.answer st))
  && negb (truthy (AgentState.error st)).

Definition shown (st : AgentState.t) : list bool :=
  [showsLoading st; showsError st; showsAnswer st; showsPlaceholder st].

End View.

(* ------------------------------------------------------------------ *)
(** ** Any interleaving of the agent's steps *)

Module Steps.

Import Agent.

(** What can happen to an agent between two awaits: the body of [addPhoto]
    runs in the lock, [setModel] is called, [answer] is called and runs up
    to the lock, or the locked part of an [answer] runs. *)
Inductive Step :=
| AddPhoto (batch : list Photo)
| SetModel (model : AIModel)
| AnswerSync
| AnswerLocked (w : World) (question : string).

Definition step (keys : Keys) (ag : agent) (s : Step) : agent :=
  match s with
  | AddPhoto batch => after (addPhoto batch) ag
  | SetModel model => after (setModel model) ag
  | AnswerSync => after (answerSync keys) ag
  | AnswerLocked w question => after (answerLocked w question) ag
  end.

Definition steps (keys : Keys) (l : list Step) (ag : agent) : agent :=
  fold_left (step keys) l ag.

(** A method called and run to its end before the next one is called. *)
Inductive Call :=
| CallAddPhoto (batch : list Photo)
| CallSetModel (model : AIModel)
| CallAnswer (w : World) (question : string).

Definition call (keys : Keys) (ag : agent) (c : Call) : agent :=
  match c with
  | CallAddPhoto batch => after (addPhoto batch) ag
  | CallSetModel model => after (setModel model) ag
  | CallAnswer w question => after (answer keys w question) ag
  end.

Definition calls (keys : Keys) (l : list Call) (ag : agent) : agent :=
  fold_left (call keys) l ag.

End Steps.

(* ------------------------------------------------------------------ *)
(** ** The agent without model selection (unnamed/part_000) *)

Module Earlier.

Local Open Scope string_scope.

Definition Photo := bytes.

(** [type AgentState], here without [selectedModel]. *)
Record AgentState := mkState {
  lastDescription : option string;
  answer : option string;
  loading : bool;
  error : option string
}.

Record agent := mkAgent {
  photos : list Photo;
  state : AgentState;
  stateCopy : AgentState
}.

Inductive Event :=
| Notify (copy : AgentState)
| StartAudio
| OpenAIRequest (question : string) (images : list Photo).

(** [{ loading: false }] *)
Definition fresh : agent :=
  {| photos := [];
     state := mkState None None false None;
     stateCopy := mkState None None false None |}.

(** [#notify] *)
Definition notify (ag : agent) : agent * list Event :=
  ({| photos := photos ag; state := state ag; stateCopy := state ag |},
   [Notify (state ag)]).

(** The body run by [addPhoto] inside the lock. *)
Definition addPhoto (batch : list Photo) (ag : agent) : agent * list Event :=
  notify
    {| photos := (photos ag ++ batch)%list;
       state :=
         mkState
           (Some ("Received " ++ Js.ofNat (List.length batch) ++ " new photo(s)"))
           (answer (state ag)) (loading (state ag)) (error (state ag));
       stateCopy := stateCopy ag |}.

(** [answer] up to [await this.#lock.inLock(...)]: there is no
    configuration check, and the call is ignored while loading. *)
Definition answerSync (ag : agent) : Agent.Outcome * agent * list Event :=
  if loading (state ag) then (Agent.Ignored, ag, [StartAudio])
  else
    let (ag1, tr) :=
      notify
        {| photos := photos ag;
           state := mkState (lastDescription (state ag)) (answer (state ag))
                      true None;
           stateCopy := stateCopy ag |} in
    (Agent.Queued, ag1, StartAudio :: tr).

Definition failure : string :=
  "Failed to get response from AI. Please check your OpenAI API key and try again.".

(** The function passed to [this.#lock.inLock] by [answer]; [post] is what
    the request of [answerQuestionWithImages] settles to. *)
Definition answerLocked (post : OpenAI.AxiosResult) (question : string)
    (ag : agent) : agent * list Event :=
  let st := state ag in
  let (st1, tr) :=
    if Nat.eqb (List.length (photos ag)) 0 then
      (mkState (lastDescription st) (Some Agent.noPhotos) (loading st) None, [])
    else
      match OpenAI.answerQuestionWithImages post with
      | Resolved a =>
          (mkState (lastDescription st) (Some a) (loading st) None,
           [OpenAIRequest question (photos ag)])
      | Rejected _ =>
          (mkState (lastDescription st) None (loading st) (Some failure),
           [OpenAIRequest question (photos ag)])
      end in
  let (ag2, tr2) :=
    notify
      {| photos := photos ag;
         state := mkState (lastDescription st1) (answer st1) false (error st1);
         stateCopy := stateCopy ag |} in
  (ag2, (tr ++ tr2)%list).

(** A call of [answer] whose locked part runs as soon as it is queued. *)
Definition answerRun (post : OpenAI.AxiosResult) (question : string)
    (ag : agent) : Agent.Outcome * agent * list Event :=
  match answerSync ag with
  | (Agent.Queued, ag1, tr) =>
      let (ag2, tr2) := answerLocked post question ag1 in
      (Agent.Queued, ag2, (tr ++ tr2)%list)
  | r => r
  end.

(** The state of the later agent seen without its model, and with the
    text of the error left out. *)
Definition forget (st : AgentState.t) : AgentState :=
  mkState (AgentState.lastDescription st) (AgentState.answer st)
    (AgentState.loading st)
    (match AgentState.error st with Some _ => Some failure | None => None end).

Definition blur (st : AgentState) : AgentState :=
  mkState (lastDescription st) (answer st) (loading st)
    (match error st with Some _ => Some failure | None => None end).

End Earlier.

(* ------------------------------------------------------------------ *)
(** ** Notions used to state properties of the agent *)

Module Props.

Import Agent.

(** A key that is absent or made of white space only. *)
Definition blank (key : option string) : bool :=
  match key with
  | None => true
  | Some s => forallb Js.isWhiteSpace (list_ascii_of_string s)
  end.

(** The answer and the error are not both set. *)
Definition apart (st : AgentState.t) : bool :=
  negb (AgentState.isSet (AgentState.answer st)
        && AgentState.isSet (AgentState.error st)).

(** The batches added by a list of steps, in order. *)
Definition batches (l : list Steps.Step) : list (list Photo) :=
  flat_map (fun s => match s with Steps.AddPhoto batch => [batch] | _ => [] end) l.

(** The photos that leave the application in a trace, in order. *)
Definition imagesSent (tr : list Event) : list Photo :=
  flat_map (fun e =>
              match e with
              | OpenAIRequest _ ps => ps
              | OllamaRequest _ messages => flat_map images messages
              | _ => []
              end) tr.

Definition isRequest (e : Event) : bool :=
  match e with
  | OpenAIRequest _ _ | OllamaRequest _ _ | GroqRequest _ _ => true
  | _ => false
  end.

(** The calls to a backend in a trace. *)
Definition requests (tr : list Event) : list Event := filter isRequest tr.

(** The line that stands for photo number [index] (from 0) in the final
    prompt of the local backend: the description returned by the call made
    for that photo, or a placeholder when that call failed. *)
Definition described (w : World) (index : nat) : string :=
  match ollamaInference w (S index) with
  | Resolved description =>
      ("Image " ++ Js.ofNat (index + 1) ++ ": " ++ description)%string
  | Rejected _ =>
      ("Image " ++ Js.ofNat (index + 1) ++ ": Could not analyze")%string
  end.

Definition descriptions (w : World) (count : nat) : list string :=
  map (described w) (seq 0 count).

(** The last request of the local backend, for a question and the lines
    that stand for the photos. *)
Definition finalRequest (lines : list string) (question : string) : Event :=
  OllamaRequest moondream
    [ {| role := "system";
         content := "You are a smart AI that needs to read through descriptions of images and answer user's questions. DO NOT mention the images, scenes or descriptions in your answer, just answer the question. DO NOT try to generalize or provide possible scenarios. ONLY use the information in the description of the images to answer the question. BE concise and specific.";
         images := [] |};
      {| role := "user";
         content := ("Images:" ++ Js.LF ++ Js.join (Js.LF ++ Js.LF) lines
                     ++ Js.LF ++ Js.LF ++ "Question: " ++ question)%string;
         images := [] |} ].

End Props.

(* ------------------------------------------------------------------ *)
(** ** The state listeners registered by [use] *)

Module Subscription.

(** The listeners are closures, compared by identity; a natural number
    stands for the identity of each. *)
Definition Listener := nat.

(** [this.#stateListeners.push(listener)] *)
Definition subscribe (listener : Listener) (ls : list Listener) : list Listener :=
  ls ++ [listener].

(** [this.#stateListeners.filter(l => l !== listener)] *)
Definition unsubscribe (listener : Listener) (ls : list Listener) : list Listener :=
  filter (fun l => negb (Nat.eqb l listener)) ls.

End Subscription.

(* ------------------------------------------------------------------ *)
(** ** sources/app/components/ModelSelector.tsx *)

Module ModelSelector.

Local Open Scope string_scope.

Record Entry := mkEntry {
  id : AIModel;
  name : string;
  description : string;
  icon : string
}.

(** The table [MODELS]; each [icon] is an emoji, written here as the bytes
    of its UTF-8 encoding. *)
Definition MODELS : list Entry :=
  [ {| id := openai_vision; name := "OpenAI GPT-4 Vision";
       description := "High-quality image analysis"; icon := "🤖" |};
    {| id := ollama_moondream; name := "Ollama Moondream";
       description := "Local image analysis"; icon := "🏠" |};
    {| id := groq_llama; name := "Groq Llama";
       description := "Fast text analysis"; icon := "⚡" |} ].

Definition sameModel (a b : AIModel) : bool :=
  match a, b with
  | openai_vision, openai_vision
  | ollama_moondream, ollama_moondream
  | groq_llama, groq_llama => true
  | _, _ => false
  end.

(** [MODELS.find(model => model.id === selectedModel)] *)
Definition selectedModelInfo (selectedModel : AIModel) : option Entry :=
  find (fun model => sameModel (id model) selectedModel) MODELS.

(** For each button, whether it gets [styles.buttonSelected]. *)
Definition highlighted (selectedModel : AIModel) : list bool :=
  map (fun model => sameModel selectedModel (id model)) MODELS.

End ModelSelector.

(* ------------------------------------------------------------------ *)
(** * Properties of the reassembler *)

Section ReassemblerFacts.

Import Reassembler.

Implicit Types (st : State) (d e : bytes) (ds : list bytes) (cs : list Chunk).

Lemma onChunk_idle_start st d :
  previousChunk st = -1 ->
  onChunk st (Some 0) d = ({| previousChunk := 0; buffer := d |}, None).
Proof.
  intros Hidle. unfold onChunk, branch. rewrite Hidle. reflexivity.
Qed.

Lemma onChunk_idle_other st id d :
  previousChunk st = -1 ->
  id <> Some 0 ->
  onChunk st id d = (st, None).
Proof.
  intros Hidle Hid. unfold onChunk, branch. rewrite Hidle. simpl.
  destruct id as [i|]; [|reflexivity].
  destruct (Z.eqb_spec i 0) as [->|_]; [congruence|reflexivity].
Qed.

Lemma onChunk_next st d :
  previousChunk st <> -1 ->
  onChunk st (Some (previousChunk st + 1)) d
  = ({| previousChunk := previousChunk st + 1; buffer := buffer st ++ d |}, None).
Proof.
  intros Hmid. unfold onChunk, branch.
  destruct (Z.eqb_spec (previousChunk st) (-1)) as [|_]; [contradiction|].
  rewrite Z.eqb_refl. reflexivity.
Qed.

Lemma onChunk_mismatch st i d :
  previousChunk st <> -1 ->
  i <> previousChunk st + 1 ->
  onChunk st (Some i) d = (dropped, None).
Proof.
  intros Hmid Hi. unfold onChunk, branch.
  destruct (Z.eqb_spec (previousChunk st) (-1)) as [|_]; [contradiction|].
  destruct (Z.eqb_spec i (previousChunk st + 1)) as [|_]; [contradiction|].
  reflexivity.
Qed.

Lemma onChunk_end st e :
  previousChunk st <> -1 ->
  onChunk st None e
  = ({| previousChunk := -1; buffer := buffer st |},
     match buffer st with [] => None | _ :: _ => Some (buffer st) end).
Proof.
  intros Hmid. unfold onChunk, branch.
  destruct (Z.eqb_spec (previousChunk st) (-1)) as [|_]; [contradiction|].
  destruct (buffer st); reflexivity.
Qed.

Lemma feed_cons st id d cs :
  feed st ((id, d) :: cs)
  = (fst (feed (fst (onChunk st id d)) cs),
     emitted (snd (onChunk st id d)) ++ snd (feed (fst (onChunk st id d)) cs)).
Proof.
  simpl. destruct (onChunk st id d) as [st1 photo]. simpl.
  destruct (feed st1 cs). reflexivity.
Qed.

Lemma feed_app cs1 : forall st cs2,
  feed st (cs1 ++ cs2)
  = (fst (feed (fst (feed st cs1)) cs2),
     snd (feed st cs1) ++ snd (feed (fst (feed st cs1)) cs2)).
Proof.
  induction cs1 as [|[id d] cs1 IH]; intros st cs2.
  - simpl. destruct (feed st cs2). reflexivity.
  - rewrite <- app_comm_cons, !feed_cons, IH. simpl.
    now rewrite app_assoc.
Qed.

(** Consecutive data records are all accepted and appended. *)
Lemma feed_numbered ds : forall st,
  0 <= previousChunk st ->
  feed st (numbered (previousChunk st + 1) ds)
  = ({| previousChunk := previousChunk st + Z.of_nat (List.length ds);
        buffer := buffer st ++ List.concat ds |}, []).
Proof.
  induction ds as [|d ds IH]; intros st Hpos.
  - simpl. rewrite Z.add_0_r, app_nil_r. now destruct st.
  - cbn [numbered]. rewrite feed_cons, onChunk_next by lia.
    cbn [fst snd emitted].
    change (previousChunk st + 1 + 1)
      with (previousChunk {| previousChunk := previousChunk st + 1;
                             buffer := buffer st ++ d |} + 1).
    rewrite IH by (simpl; lia). cbn [fst snd previousChunk buffer List.concat].
    rewrite <- app_assoc. f_equal. f_equal.
    cbn [List.length]. rewrite Nat2Z.inj_succ. lia.
Qed.

(** While idle, everything but a START is left aside. *)
Lemma feed_idle_noise cs : forall st,
  previousChunk st = -1 ->
  forallb (fun c => negb (isStart c)) cs = true ->
  feed st cs = (st, []).
Proof.
  induction cs as [|[id d] cs IH]; intros st Hidle Hcs; [reflexivity|].
  simpl in Hcs. apply andb_true_iff in Hcs as [Hc Hcs].
  rewrite feed_cons, onChunk_idle_other; trivial.
  - cbn [fst snd emitted app]. now rewrite IH.
  - intros ->. discriminate.
Qed.

Lemma numbered_no_start ds : forall from,
  0 < from ->
  forallb (fun c => negb (isStart c)) (numbered from ds) = true.
Proof.
  induction ds as [|d ds IH]; intros from Hfrom; [reflexivity|].
  cbn [numbered forallb]. rewrite IH by lia.
  unfold isStart. cbn [fst].
  destruct (Z.eqb_spec from 0); [lia|reflexivity].
Qed.

End ReassemblerFacts.

Section ReassemblerClaims.

Import Reassembler.

(** C1 (as amended).  A well-formed transfer fed to an idle reassembler
    -- START with id 0, data records numbered 1, 2, ..., then END -- whose
    payloads are not all empty gives exactly one photo, the concatenation
    of the payloads in arrival order (the payload of chunk 0 included), and
    leaves the reassembler idle.  Whatever the buffer held before the START
    is cleared by it.  When every payload is empty, END finds the buffer
    empty: no photo comes out, and the reassembler is idle again. *)
Theorem valid_transfer_yields_one_photo :
  forall (st : State) (d0 : bytes) (ds : list bytes) (e : bytes),
    previousChunk st = -1 ->
    (d0 ++ List.concat ds <> [] ->
     feed st (transfer d0 ds e)
     = ({| previousChunk := -1; buffer := d0 ++ List.concat ds |},
        [d0 ++ List.concat ds]))
    /\ (d0 ++ List.concat ds = [] ->
        feed st (transfer d0 ds e)
        = ({| previousChunk := -1; buffer := [] |}, [])).
Proof.
  intros st d0 ds e Hidle.
  assert (Hfeed : feed st (transfer d0 ds e)
                  = ({| previousChunk := -1; buffer := d0 ++ List.concat ds |},
                     match d0 ++ List.concat ds with
                     | [] => []
                     | _ :: _ => [d0 ++ List.concat ds]
                     end)).
  { unfold transfer.
    rewrite feed_cons, onChunk_idle_start by assumption.
    cbn [fst snd emitted app].
    pose proof (feed_numbered ds {| previousChunk := 0; buffer := d0 |}) as Hdata.
    cbn [previousChunk buffer] in Hdata. change (0 + 1) with 1 in Hdata.
    rewrite feed_app, Hdata by lia.
    cbn [fst snd app].
    rewrite feed_cons, onChunk_end by (simpl; lia).
    cbn [fst snd buffer feed].
    destruct (d0 ++ List.concat ds); reflexivity. }
  split.
  - intros Hne. rewrite Hfeed.
    destruct (d0 ++ List.concat ds); [congruence|reflexivity].
  - intros Hempty. rewrite Hfeed, Hempty. reflexivity.
Qed.

Lemma valid_transfer_yields_one_photo_witness :
  previousChunk initial = -1
  /\ [x01] ++ List.concat [[x02]; [x03; x04]] <> []
  /\ feed initial (transfer [x01] [[x02]; [x03; x04]] [])
     = ({| previousChunk := -1; buffer := [x01; x02; x03; x04] |},
        [[x01; x02; x03; x04]])
  /\ feed {| previousChunk := -1; buffer := [x0a] |} (transfer [] [[]; []] [])
     = ({| previousChunk := -1; buffer := [] |}, []).
Proof.
  split; [reflexivity|]. split; [simpl; congruence|]. split.
  - apply (proj1 (valid_transfer_yields_one_photo
                    initial [x01] [[x02]; [x03; x04]] [] eq_refl)).
    simpl. congruence.
  - apply (proj2 (valid_transfer_yields_one_photo
                    {| previousChunk := -1; buffer := [x0a] |} [] [[]; []] []
                    eq_refl)).
    reflexivity.
Defined.

(** C1 as stated fails in two ways: a well-formed transfer whose payloads
    are all empty gives no photo (END finds the buffer empty), and a
    well-formed transfer that starts while another one is in progress gives
    no photo either. *)
Lemma valid_transfer_as_stated_fails :
  (feed initial (transfer [] [[]] []) = (initial, [])
   /\ snd (feed initial (transfer [] [[]] [])) <> [[] ++ List.concat [[]]])
  /\ (feed initial [(Some 0, [x0a]); (Some 1, [x0b]); (Some 2, [x0c])]
      = ({| previousChunk := 2; buffer := [x0a; x0b; x0c] |}, [])
      /\ feed {| previousChunk := 2; buffer := [x0a; x0b; x0c] |}
              (transfer [x01] [[x02]] [])
         = (dropped, [])
      /\ snd (feed {| previousChunk := 2; buffer := [x0a; x0b; x0c] |}
                   (transfer [x01] [[x02]] []))
         <> [[x01] ++ List.concat [[x02]]]).
Proof.
  repeat split; try reflexivity; vm_compute; congruence.
Qed.

(** C2 (as amended).  A START record (id 0) that arrives while a transfer
    is in progress is a discontinuity like any other: the partial buffer of
    the first transfer is discarded, the reassembler goes back to idle and
    the START record itself is dropped.  The records that continue the
    second transfer (ids 1, 2, ..., END) then arrive while idle and are
    ignored, so the second transfer gives no photo. *)
Theorem restart_mid_transfer_is_dropped :
  forall (st : State) (d0 : bytes) (ds : list bytes) (e : bytes),
    previousChunk st <> -1 ->
    onChunk st (Some 0) d0 = ({| previousChunk := -1; buffer := [] |}, None)
    /\ feed st (transfer d0 ds e)
       = ({| previousChunk := -1; buffer := [] |}, []).
Proof.
  intros st d0 ds e Hmid.
  assert (Hstep : onChunk st (Some 0) d0 = (dropped, None))
    by (apply onChunk_mismatch; [assumption|lia]).
  split; [exact Hstep|].
  unfold transfer. rewrite feed_cons, Hstep. cbn [fst snd emitted app].
  rewrite (feed_idle_noise _ dropped); [reflexivity|reflexivity|].
  rewrite forallb_app, numbered_no_start by lia. reflexivity.
Qed.

Lemma restart_mid_transfer_is_dropped_witness :
  onChunk (fst (feed initial [(Some 0, [x0a]); (Some 1, [x0b])])) (Some 0) [x01]
  = ({| previousChunk := -1; buffer := [] |}, None)
  /\ feed (fst (feed initial [(Some 0, [x0a]); (Some 1, [x0b])]))
          (transfer [x01] [[x02]; [x03]] [])
     = ({| previousChunk := -1; buffer := [] |}, []).
Proof.
  apply (restart_mid_transfer_is_dropped
           (fst (feed initial [(Some 0, [x0a]); (Some 1, [x0b])]))
           [x01] [[x02]; [x03]] []).
  vm_compute. congruence.
Defined.

(** C2 as stated fails: START, 1, START, 1, END gives no photo, where the
    claim promises the payloads of the second transfer. *)
Lemma restart_mid_transfer_as_stated_fails :
  feed initial [(Some 0, [x0a]); (Some 1, [x0b])]
  = ({| previousChunk := 1; buffer := [x0a; x0b] |}, [])
  /\ snd (feed {| previousChunk := 1; buffer := [x0a; x0b] |}
               (transfer [x01] [[x02]] []))
     = []
  /\ snd (feed {| previousChunk := 1; buffer := [x0a; x0b] |}
               (transfer [x01] [[x02]] []))
     <> [[x01] ++ List.concat [[x02]]].
Proof.
  repeat split; try reflexivity; vm_compute; congruence.
Qed.

(** C3.  A data record that arrives during a transfer with an id other than
    the expected one produces no photo, empties the buffer and puts the
    reassembler back to idle; the record itself is not taken as a START,
    whatever its id.  Everything that follows up to the next START is left
    aside without a photo, and that START begins a transfer with exactly
    its own payload. *)
Theorem discontinuity_resets_to_idle :
  forall (st : State) (i : Z) (d : bytes),
    previousChunk st <> -1 ->
    i <> previousChunk st + 1 ->
    onChunk st (Some i) d = ({| previousChunk := -1; buffer := [] |}, None)
    /\ (forall cs,
           forallb (fun c => negb (isStart c)) cs = true ->
           feed st ((Some i, d) :: cs)
           = ({| previousChunk := -1; buffer := [] |}, []))
    /\ (forall cs d' rest,
           forallb (fun c => negb (isStart c)) cs = true ->
           feed st ((Some i, d) :: cs ++ (Some 0, d') :: rest)
           = feed {| previousChunk := 0; buffer := d' |} rest).
Proof.
  intros st i d Hmid Hi.
  assert (Hstep : onChunk st (Some i) d = (dropped, None))
    by (apply onChunk_mismatch; assumption).
  split; [exact Hstep|]. split.
  - intros cs Hcs. rewrite feed_cons, Hstep. cbn [fst snd emitted app].
    now rewrite (feed_idle_noise cs dropped).
  - intros cs d' rest Hcs. rewrite feed_cons, Hstep. cbn [fst snd emitted app].
    rewrite feed_app, (feed_idle_noise cs dropped) by trivial.
    cbn [fst snd app]. rewrite feed_cons, onChunk_idle_start by reflexivity.
    cbn [fst snd emitted app]. now destruct (feed _ rest).
Qed.

Lemma discontinuity_resets_to_idle_witness :
  previousChunk {| previousChunk := 1; buffer := [x0a; x0b] |} <> -1
  /\ 3 <> previousChunk {| previousChunk := 1; buffer := [x0a; x0b] |} + 1
  /\ onChunk {| previousChunk := 1; buffer := [x0a; x0b] |} (Some 3) [x0c]
     = ({| previousChunk := -1; buffer := [] |}, None)
  /\ feed {| previousChunk := 1; buffer := [x0a; x0b] |}
          ((Some 3, [x0c]) :: [(Some 4, [x0d]); (None, [])]
           ++ (Some 0, [x01]) :: [(Some 1, [x02]); (None, [])])
     = ({| previousChunk := -1; buffer := [x01; x02] |}, [[x01; x02]]).
Proof.
  split; [simpl; lia|]. split; [simpl; lia|].
  destruct (discontinuity_resets_to_idle
              {| previousChunk := 1; buffer := [x0a; x0b] |} 3 [x0c])
    as (Hstep & _ & Hnext).
  - simpl. lia.
  - simpl. lia.
  - split; [exact Hstep|].
    etransitivity.
    + apply (Hnext [(Some 4, [x0d]); (None, [])] [x01]
               [(Some 1, [x02]); (None, [])]).
      reflexivity.
    + reflexivity.
Defined.

End ReassemblerClaims.

(* ------------------------------------------------------------------ *)
(** * Properties of the photo window *)

Section PhotoWindowFacts.

Import PhotoWindow.

Context {A : Type}.

Implicit Types (p : list A) (x : A).

Lemma slice_last9_length p :
  List.length (slice (-9) p) = Nat.min (List.length p) 9.
Proof.
  unfold slice. cbn [Z.ltb Z.compare]. rewrite length_skipn. lia.
Qed.

Lemma slice_last9_short p :
  (List.length p <= 9)%nat -> slice (-9) p = p.
Proof.
  intros Hlen. unfold slice. cbn [Z.ltb Z.compare].
  replace (Z.to_nat _) with 0%nat by lia. reflexivity.
Qed.

Lemma slice_last9_full oldest p :
  List.length p = 9%nat -> slice (-9) (oldest :: p) = p.
Proof.
  intros Hlen. unfold slice. cbn [Z.ltb Z.compare List.length].
  replace (Z.to_nat _) with 1%nat by lia. reflexivity.
Qed.

Lemma push_length p x :
  List.length (push p x) = S (Nat.min (List.length p) 9).
Proof.
  unfold push. rewrite length_app, slice_last9_length. simpl. lia.
Qed.

Lemma window_snoc (xs : list A) x :
  window (xs ++ [x]) = push (window xs) x.
Proof.
  unfold window. now rewrite fold_left_app.
Qed.

(** C8.  The window never holds more than 10 photos, whatever arrived:
    a push onto a window of fewer than 10 photos appends the new photo, and
    a push onto a window of 10 photos drops exactly the oldest one, keeps
    the other nine in order and puts the new photo last. *)
Theorem window_bounded_evicts_oldest :
  forall (p : list A) (x : A),
    (List.length (push p x) <= 10)%nat
    /\ (forall xs : list A, (List.length (window xs) <= 10)%nat)
    /\ ((List.length p < 10)%nat -> push p x = p ++ [x])
    /\ (forall oldest rest,
           p = oldest :: rest ->
           List.length p = 10%nat ->
           push p x = rest ++ [x]).
Proof.
  intros p x. split; [rewrite push_length; lia|]. split; [|split].
  - intros xs. destruct xs as [|y ys] using rev_ind; [simpl; lia|].
    rewrite window_snoc, push_length. lia.
  - intros Hlen. unfold push. rewrite slice_last9_short by lia. reflexivity.
  - intros oldest rest -> Hlen. unfold push.
    rewrite slice_last9_full; [reflexivity|]. simpl in Hlen. lia.
Qed.

End PhotoWindowFacts.

Lemma window_bounded_evicts_oldest_witness :
  PhotoWindow.push [0; 1; 2; 3; 4; 5; 6; 7; 8; 9]%nat 10%nat
  = [1; 2; 3; 4; 5; 6; 7; 8; 9; 10]%nat
  /\ PhotoWindow.push [7; 8]%nat 9%nat = [7; 8; 9]%nat.
Proof.
  split.
  - apply (proj2 (proj2 (proj2
      (window_bounded_evicts_oldest [0; 1; 2; 3; 4; 5; 6; 7; 8; 9]%nat 10%nat)))
      0%nat [1; 2; 3; 4; 5; 6; 7; 8; 9]%nat).
    + reflexivity.
    + reflexivity.
  - apply (proj1 (proj2 (proj2
      (window_bounded_evicts_oldest [7; 8]%nat 9%nat)))).
    simpl. lia.
Defined.

(* ------------------------------------------------------------------ *)
(** * Properties of the agent *)

Section AgentFacts.

Import Agent.

Local Open Scope eff_scope.

Implicit Types (ag : agent) (keys : Keys) (w : World) (q : string).

(** Running a sequence. *)

Lemma run_eta {A : Type} (m : Eff A) ag :
  m ag = (result m ag, after m ag, trace m ag).
Proof.
  unfold result, after, trace. now destruct (m ag) as [[a ag1] t1].
Qed.

Lemma bind_run {A B : Type} (m : Eff A) (f : A -> Eff B) ag :
  bind m f ag
  = (result (f (result m ag)) (after m ag),
     after (f (result m ag)) (after m ag),
     (trace m ag ++ trace (f (result m ag)) (after m ag))%list).
Proof.
  unfold bind, result, after, trace.
  destruct (m ag) as [[a ag1] t1]. cbn [fst snd].
  now destruct (f a ag1) as [[b ag2] t2].
Qed.

Lemma bind_result {A B : Type} (m : Eff A) (f : A -> Eff B) ag :
  result (bind m f) ag = result (f (result m ag)) (after m ag).
Proof. unfold result at 1. now rewrite bind_run. Qed.

Lemma bind_after {A B : Type} (m : Eff A) (f : A -> Eff B) ag :
  after (bind m f) ag = after (f (result m ag)) (after m ag).
Proof. unfold after at 1. now rewrite bind_run. Qed.

Lemma bind_trace {A B : Type} (m : Eff A) (f : A -> Eff B) ag :
  trace (bind m f) ag
  = (trace m ag ++ trace (f (result m ag)) (after m ag))%list.
Proof. unfold trace at 1. now rewrite bind_run. Qed.

Lemma readOnly_bind {A B : Type} (m : Eff A) (f : A -> Eff B) :
  readOnly m -> (forall a, readOnly (f a)) -> readOnly (bind m f).
Proof.
  intros Hm Hf ag. now rewrite bind_after, Hm, Hf.
Qed.

Lemma readOnly_ret {A : Type} (a : A) : readOnly (ret a).
Proof. now intros ag. Qed.

Lemma readOnly_emit e : readOnly (emit e).
Proof. now intros ag. Qed.

Lemma readOnly_getState : readOnly getState.
Proof. now intros ag. Qed.

Lemma readOnly_getPhotos : readOnly getPhotos.
Proof. now intros ag. Qed.

Create HintDb readonly.

Hint Resolve readOnly_ret readOnly_emit readOnly_getState readOnly_getPhotos
  : readonly.

Ltac readonly :=
  repeat first
    [ progress auto with readonly
    | apply readOnly_bind
    | intros ? ].

(** The backends read the agent and call out; they write nothing. *)

Lemma readOnly_callOllama w n messages : readOnly (callOllama w n messages).
Proof. unfold callOllama. readonly. Qed.

Lemma readOnly_describe w index photo : readOnly (describe w index photo).
Proof.
  unfold describe. apply readOnly_bind; [apply readOnly_callOllama|].
  intros c. apply readOnly_ret.
Qed.

Lemma readOnly_mapIndexed {A B : Type} (f : nat -> A -> Eff B) :
  (forall index x, readOnly (f index x)) ->
  forall l index, readOnly (mapIndexed f index l).
Proof.
  intros Hf l. induction l as [|x l IH]; intros index; cbn [mapIndexed].
  - apply readOnly_ret.
  - apply readOnly_bind; [apply Hf|]. intros y.
    apply readOnly_bind; [apply IH|]. intros ys. apply readOnly_ret.
Qed.

Lemma readOnly_ollama w q : readOnly (ollama w q).
Proof.
  unfold ollama. apply readOnly_bind; [apply readOnly_callOllama|].
  intros [_|e]; [|apply readOnly_ret].
  apply readOnly_bind; [apply readOnly_getPhotos|]. intros ps.
  apply readOnly_bind;
    [apply readOnly_mapIndexed; intros; apply readOnly_describe|].
  intros descriptions.
  apply readOnly_bind; [apply readOnly_callOllama|].
  intros [a|e]; apply readOnly_ret.
Qed.

Lemma readOnly_dispatch w q : readOnly (dispatch w q).
Proof.
  unfold dispatch. apply readOnly_bind; [apply readOnly_getState|].
  intros st. apply readOnly_bind; [apply readOnly_emit|]. intros _.
  destruct (AgentState.selectedModel st).
  - readonly.
  - apply readOnly_ollama.
  - readonly.
Qed.

(** The switch is entered once per dispatch: the trace of [dispatch]
    starts with its [Dispatch] event and holds no other one. *)

Lemma callOllama_trace w n messages ag :
  trace (callOllama w n messages) ag = [OllamaRequest moondream messages].
Proof. reflexivity. Qed.

Lemma describe_no_dispatch w index photo ag :
  filter isDispatch (trace (describe w index photo) ag) = [].
Proof. reflexivity. Qed.

Lemma mapIndexed_no_dispatch {A B : Type} (f : nat -> A -> Eff B) :
  (forall index x ag, filter isDispatch (trace (f index x) ag) = []) ->
  forall l index ag, filter isDispatch (trace (mapIndexed f index l) ag) = [].
Proof.
  intros Hf l. induction l as [|x l IH]; intros index ag; cbn [mapIndexed].
  - reflexivity.
  - rewrite bind_trace, filter_app, Hf, bind_trace, filter_app, IH.
    reflexivity.
Qed.

Lemma ollama_no_dispatch w q ag :
  filter isDispatch (trace (ollama w q) ag) = [].
Proof.
  unfold ollama. rewrite bind_trace, filter_app, callOllama_trace.
  cbn [filter isDispatch app].
  destruct (result (callOllama w 0 _) ag) as [_|e]; [|reflexivity].
  rewrite bind_trace, filter_app. cbn [trace getPhotos snd filter app].
  rewrite bind_trace, filter_app.
  rewrite (mapIndexed_no_dispatch (describe w) (describe_no_dispatch w)).
  cbn [app]. rewrite bind_trace, filter_app, callOllama_trace.
  cbn [filter isDispatch app].
  now destruct (result (callOllama w _ _) _).
Qed.

Lemma dispatch_trace w q ag :
  exists rest,
    trace (dispatch w q) ag = Dispatch (AgentState.selectedModel (state ag)) :: rest
    /\ filter isDispatch rest = [].
Proof.
  unfold dispatch. rewrite bind_trace. cbn [trace getState snd app].
  rewrite bind_trace. cbn [trace emit snd app].
  change (result getState ag) with (state ag).
  change (after getState ag) with ag.
  eexists. split; [reflexivity|].
  change (after (emit (Dispatch (AgentState.selectedModel (state ag)))) ag)
    with ag.
  destruct (AgentState.selectedModel (state ag)).
  - reflexivity.
  - apply ollama_no_dispatch.
  - reflexivity.
Qed.

Lemma dispatch_counts_once w q ag :
  dispatches (trace (dispatch w q) ag) = 1%nat.
Proof.
  destruct (dispatch_trace w q ag) as (rest & -> & Hrest).
  unfold dispatches. cbn [filter isDispatch]. now rewrite Hrest.
Qed.

(** The function run inside the lock, without photos and with photos. *)

Lemma answerLocked_empty w q ag :
  photos ag = [] ->
  answerLocked w q ag
  = (tt,
     {| photos := photos ag;
        state := AgentState.setLoading false (stored noPhotos (state ag));
        stateCopy := AgentState.setLoading false (stored noPhotos (state ag)) |},
     [Notify (AgentState.setLoading false (stored noPhotos (state ag)))]).
Proof.
  intros Hnone. destruct ag as [ps st sc]. cbn [photos] in Hnone.
  subst ps. reflexivity.
Qed.

Lemma answerLocked_dispatch w q ag :
  photos ag <> [] ->
  answerLocked w q ag
  = (tt,
     {| photos := photos ag;
        state := settled (result (dispatch w q) ag) (state ag);
        stateCopy := settled (result (dispatch w q) ag) (state ag) |},
     (trace (dispatch w q) ag
      ++ [Notify (settled (result (dispatch w q) ag) (state ag))])%list).
Proof.
  intros Hsome. destruct ag as [[|p ps] st sc]; [contradiction|].
  unfold answerLocked, tryBody, bind, getPhotos.
  cbn [photos List.length Nat.eqb].
  rewrite (run_eta (dispatch w q) _), (readOnly_dispatch w q _).
  destruct (result (dispatch w q) _) as [a|e]; cbn [state];
    cbn; rewrite ?app_nil_r; reflexivity.
Qed.

(** The three ways through the synchronous part of [answer]. *)

Lemma answerSync_unconfigured keys ag :
  configured (checkModelConfiguration keys (state ag)) = false ->
  answerSync keys ag
  = (ConfigurationError,
     {| photos := photos ag;
        state := AgentState.setAnswer None
                   (AgentState.setError
                      (errorMessage (checkModelConfiguration keys (state ag)))
                      (state ag));
        stateCopy := AgentState.setAnswer None
                       (AgentState.setError
                          (errorMessage (checkModelConfiguration keys (state ag)))
                          (state ag)) |},
     [Notify (AgentState.setAnswer None
                (AgentState.setError
                   (errorMessage (checkModelConfiguration keys (state ag)))
                   (state ag)))]).
Proof.
  intros Hcfg. unfold answerSync, bind, getState. rewrite Hcfg. reflexivity.
Qed.

Lemma answerSync_loading keys ag :
  configured (checkModelConfiguration keys (state ag)) = true ->
  AgentState.loading (state ag) = true ->
  answerSync keys ag = (Ignored, ag, [StartAudio]).
Proof.
  intros Hcfg Hload. unfold answerSync, bind, getState. rewrite Hcfg.
  cbn. rewrite Hload. reflexivity.
Qed.

Lemma answerSync_start keys ag :
  configured (checkModelConfiguration keys (state ag)) = true ->
  AgentState.loading (state ag) = false ->
  answerSync keys ag
  = (Queued,
     {| photos := photos ag;
        state := AgentState.setError None (AgentState.setLoading true (state ag));
        stateCopy := AgentState.setError None
                       (AgentState.setLoading true (state ag)) |},
     [StartAudio;
      Notify (AgentState.setError None (AgentState.setLoading true (state ag)))]).
Proof.
  intros Hcfg Hload. unfold answerSync, bind, getState. rewrite Hcfg.
  cbn. rewrite Hload. reflexivity.
Qed.

Lemma checkModelConfiguration_started keys st :
  checkModelConfiguration keys
    (AgentState.setError None (AgentState.setLoading true st))
  = checkModelConfiguration keys st.
Proof. reflexivity. Qed.

(** [answer] when nothing comes between its two parts. *)

Lemma answer_unconfigured keys w q ag :
  configured (checkModelConfiguration keys (state ag)) = false ->
  answer keys w q ag = answerSync keys ag.
Proof.
  intros Hcfg. unfold answer. rewrite bind_run, (run_eta (answerSync keys) ag).
  unfold result, after, trace.
  rewrite (answerSync_unconfigured keys ag Hcfg). reflexivity.
Qed.

Lemma answer_loading keys w q ag :
  configured (checkModelConfiguration keys (state ag)) = true ->
  AgentState.loading (state ag) = true ->
  answer keys w q ag = (Ignored, ag, [StartAudio]).
Proof.
  intros Hcfg Hload. unfold answer. rewrite bind_run.
  unfold result, after, trace.
  rewrite (answerSync_loading keys ag Hcfg Hload). reflexivity.
Qed.

Lemma answer_start keys w q ag :
  configured (checkModelConfiguration keys (state ag)) = true ->
  AgentState.loading (state ag) = false ->
  answer keys w q ag
  = (Queued,
     after (answerLocked w q) (after (answerSync keys) ag),
     (trace (answerSync keys) ag
      ++ trace (answerLocked w q) (after (answerSync keys) ag))%list).
Proof.
  intros Hcfg Hload. unfold answer. rewrite bind_run.
  replace (result (answerSync keys) ag) with Queued
    by (unfold result; now rewrite (answerSync_start keys ag Hcfg Hload)).
  cbn beta iota. rewrite bind_result, bind_after, bind_trace.
  cbn [ret result after trace fst snd].
  now rewrite app_nil_r.
Qed.

Lemma answer_result keys w q ag :
  result (answer keys w q) ag = result (answerSync keys) ag.
Proof.
  unfold answer. rewrite bind_result.
  destruct (result (answerSync keys) ag); try reflexivity.
  now rewrite bind_result.
Qed.

Lemma dispatches_app (t1 t2 : list Event) :
  dispatches (t1 ++ t2) = (dispatches t1 + dispatches t2)%nat.
Proof. unfold dispatches. now rewrite filter_app, length_app. Qed.

Lemma answerLocked_dispatches w q ag :
  dispatches (trace (answerLocked w q) ag)
  = match photos ag with [] => 0%nat | _ :: _ => 1%nat end.
Proof.
  destruct (photos ag) as [|p ps] eqn:Hphotos; unfold trace.
  - now rewrite answerLocked_empty.
  - rewrite answerLocked_dispatch by congruence. cbn [snd].
    rewrite dispatches_app, dispatch_counts_once. reflexivity.
Qed.

Lemma answerLocked_exactlyOne w q ag :
  AgentState.exactlyOne (state (after (answerLocked w q) ag)) = true
  /\ AgentState.loading (state (after (answerLocked w q) ag)) = false.
Proof.
  unfold after. destruct (photos ag) as [|p ps] eqn:Hphotos.
  - rewrite answerLocked_empty by assumption. now split.
  - rewrite answerLocked_dispatch by congruence. cbn [fst snd state].
    destruct (result (dispatch w q) ag); now split.
Qed.

End AgentFacts.

Section AgentClaims.

Import Agent.

Local Open Scope eff_scope.
Local Open Scope string_scope.

(** C4 (as amended).  When a new query starts, that is, when [answer]
    reaches the lock with the session set to loading, the error field has
    been cleared and the state published, and no backend has been called
    yet; the answer field is left as it was. *)
Theorem query_start_clears_error_only :
  forall (keys : Keys) (ag : agent),
    result (answerSync keys) ag = Queued ->
    AgentState.loading (state (after (answerSync keys) ag)) = true
    /\ AgentState.error (state (after (answerSync keys) ag)) = None
    /\ AgentState.answer (state (after (answerSync keys) ag))
       = AgentState.answer (state ag)
    /\ stateCopy (after (answerSync keys) ag) = state (after (answerSync keys) ag)
    /\ backendCalls (trace (answerSync keys) ag) = [].
Proof.
  intros keys ag. unfold result, after, trace.
  destruct (configured (checkModelConfiguration keys (state ag))) eqn:Hcfg.
  - destruct (AgentState.loading (state ag)) eqn:Hload.
    + rewrite answerSync_loading by assumption. discriminate.
    + rewrite answerSync_start by assumption. intros _. now repeat split.
  - rewrite answerSync_unconfigured by assumption. discriminate.
Qed.

Lemma query_start_clears_error_only_witness :
  result (answerSync Scenario.keys) Scenario.answered = Queued
  /\ AgentState.error (state (after (answerSync Scenario.keys) Scenario.answered))
     = None
  /\ AgentState.answer (state (after (answerSync Scenario.keys) Scenario.answered))
     = AgentState.answer (state Scenario.answered).
Proof.
  split; [reflexivity|].
  split;
    apply (query_start_clears_error_only Scenario.keys Scenario.answered);
    reflexivity.
Defined.

(** C4 as stated fails: a second question asked after a first one was
    answered starts a query that still shows the first answer. *)
Lemma query_start_keeps_previous_answer :
  result (answerSync Scenario.keys) Scenario.answered = Queued
  /\ AgentState.loading (state (after (answerSync Scenario.keys) Scenario.answered))
     = true
  /\ AgentState.answer (state (after (answerSync Scenario.keys) Scenario.answered))
     = Some noPhotos
  /\ AgentState.answer (state (after (answerSync Scenario.keys) Scenario.answered))
     <> None.
Proof.
  repeat split; try reflexivity. vm_compute. congruence.
Qed.

(** C5.  A call of [answer] that is not ignored ends with exactly one of
    [answer] and [error] set, whether it stopped at the configuration
    check, found no photo, or dispatched to a backend that answered or
    failed.  The success path stores the answer and clears the error; the
    failure path stores the error and clears the answer; both hold for any
    state the session is in when the backend settles. *)
Theorem completed_query_sets_exactly_one :
  forall (keys : Keys) (w : World) (q : string) (ag : agent),
    (result (answer keys w q) ag <> Ignored ->
     AgentState.exactlyOne (state (after (answer keys w q) ag)) = true)
    /\ (result (answer keys w q) ag = Queued ->
        AgentState.loading (state (after (answer keys w q) ag)) = false)
    /\ (forall a : string,
           AgentState.answer (state (after (storeAnswer a ;; finallyBlock) ag))
           = Some a
           /\ AgentState.error (state (after (storeAnswer a ;; finallyBlock) ag))
              = None)
    /\ (forall e : Thrown,
           AgentState.answer (state (after (catchBlock e ;; finallyBlock) ag))
           = None
           /\ AgentState.error (state (after (catchBlock e ;; finallyBlock) ag))
              = Some (failureMessage (AgentState.selectedModel (state ag)) e)).
Proof.
  intros keys w q ag. split; [|split; [|split]].
  - rewrite answer_result. unfold after.
    destruct (configured (checkModelConfiguration keys (state ag))) eqn:Hcfg.
    + destruct (AgentState.loading (state ag)) eqn:Hload.
      * unfold result. rewrite answerSync_loading by assumption.
        intros Habs. now contradiction Habs.
      * intros _. rewrite answer_start by assumption. cbn [fst snd].
        apply answerLocked_exactlyOne.
    + intros _. rewrite answer_unconfigured, answerSync_unconfigured by assumption.
      cbn [fst snd state]. unfold checkModelConfiguration in *.
      destruct (AgentState.selectedModel (state ag));
        try discriminate Hcfg;
        [destruct (missing (openai keys))|destruct (missing (groq keys))];
        try discriminate Hcfg; reflexivity.
  - rewrite answer_result. unfold after.
    destruct (configured (checkModelConfiguration keys (state ag))) eqn:Hcfg.
    + destruct (AgentState.loading (state ag)) eqn:Hload.
      * unfold result. rewrite answerSync_loading by assumption. discriminate.
      * intros _. rewrite answer_start by assumption. cbn [fst snd].
        apply answerLocked_exactlyOne.
    + unfold result. rewrite answerSync_unconfigured by assumption. discriminate.
  - intros a. now split.
  - intros e. now split.
Qed.

Lemma completed_query_sets_exactly_one_witness :
  AgentState.exactlyOne
    (state (after (answer Scenario.keys Scenario.offline "what is this?")
              (after (addPhoto [Scenario.photo]) Scenario.local)))
  = true.
Proof.
  apply (completed_query_sets_exactly_one
           Scenario.keys Scenario.offline "what is this?"
           (after (addPhoto [Scenario.photo]) Scenario.local)).
  vm_compute. congruence.
Defined.

(** C6.  A call of [answer] made while the selected backend fails the
    configuration check stops there: the error field receives the
    configuration message (and the answer field is cleared), the only thing
    the call does besides is to publish the state, so no backend is
    dispatched to or called, and the loading flag keeps the value it had,
    in the state and in every published snapshot (it stays false when no
    query is in flight). *)
Theorem unconfigured_answer_fails_fast :
  forall (keys : Keys) (w : World) (q : string) (ag : agent),
    configured (checkModelConfiguration keys (state ag)) = false ->
    result (answer keys w q) ag = ConfigurationError
    /\ (exists message,
           errorMessage (checkModelConfiguration keys (state ag)) = Some message
           /\ AgentState.error (state (after (answer keys w q) ag)) = Some message)
    /\ AgentState.answer (state (after (answer keys w q) ag)) = None
    /\ trace (answer keys w q) ag = [Notify (state (after (answer keys w q) ag))]
    /\ backendCalls (trace (answer keys w q) ag) = []
    /\ AgentState.loading (state (after (answer keys w q) ag))
       = AgentState.loading (state ag)
    /\ Forall (fun copy => AgentState.loading copy = AgentState.loading (state ag))
              (snapshots (trace (answer keys w q) ag))
    /\ photos (after (answer keys w q) ag) = photos ag.
Proof.
  intros keys w q ag Hcfg. unfold result, after, trace.
  rewrite answer_unconfigured, answerSync_unconfigured by assumption.
  cbn [fst snd state photos].
  split; [reflexivity|]. split.
  - unfold checkModelConfiguration in *.
    destruct (AgentState.selectedModel (state ag));
      try discriminate Hcfg;
      [destruct (missing (openai keys))|destruct (missing (groq keys))];
      try discriminate Hcfg; eexists; split; reflexivity.
  - repeat split. cbn [snapshots]. now constructor.
Qed.

Lemma unconfigured_answer_fails_fast_witness :
  configured (checkModelConfiguration Scenario.keys
                (state (after (setModel groq_llama)
                          (after (addPhoto [Scenario.photo]) fresh))))
  = false
  /\ AgentState.loading
       (state (after (answer Scenario.keys Scenario.world "what is this?")
                 (after (setModel groq_llama)
                    (after (addPhoto [Scenario.photo]) fresh))))
     = false
  /\ backendCalls
       (trace (answer Scenario.keys Scenario.world "what is this?")
          (after (setModel groq_llama)
             (after (addPhoto [Scenario.photo]) fresh)))
     = [].
Proof.
  split; [reflexivity|].
  split;
    apply (unconfigured_answer_fails_fast
             Scenario.keys Scenario.world "what is this?"
             (after (setModel groq_llama)
                (after (addPhoto [Scenario.photo]) fresh)));
    reflexivity.
Defined.

(** C7 (as amended).  A call of [answer] made while the session is loading
    and the selected backend passes the configuration check is a no-op: it
    dispatches to no backend and leaves the photos, the state and the
    published copy as they are.  Hence, of two calls back to back on a
    configured session that is not loading, the first is queued, the second
    is ignored, the agent ends as after the first call alone, and the
    backend switch is entered once if there are photos and not at all if
    there are none. *)
Theorem answer_while_loading_is_ignored :
  forall (keys : Keys) (w w2 : World) (q q2 : string) (ag : agent),
    configured (checkModelConfiguration keys (state ag)) = true ->
    (AgentState.loading (state ag) = true ->
     answer keys w q ag = (Ignored, ag, [StartAudio]))
    /\ (AgentState.loading (state ag) = false ->
        result (answerTwice keys w w2 q q2) ag = (Queued, Ignored)
        /\ after (answerTwice keys w w2 q q2) ag = after (answer keys w q) ag
        /\ dispatches (trace (answerTwice keys w w2 q q2) ag)
           = dispatches (trace (answer keys w q) ag)
        /\ dispatches (trace (answerTwice keys w w2 q q2) ag)
           = match photos ag with [] => 0%nat | _ :: _ => 1%nat end).
Proof.
  intros keys w w2 q q2 ag Hcfg. split; intros Hload.
  - now apply answer_loading.
  - pose proof (answerSync_start keys ag Hcfg Hload) as Hfirst.
    set (ag1 := {| photos := photos ag;
                   state := AgentState.setError None
                              (AgentState.setLoading true (state ag));
                   stateCopy := AgentState.setError None
                                  (AgentState.setLoading true (state ag)) |})
      in Hfirst.
    assert (Hsecond : answerSync keys ag1 = (Ignored, ag1, [StartAudio])).
    { apply answerSync_loading; [|reflexivity].
      subst ag1. cbn [state]. now rewrite checkModelConfiguration_started. }
    assert (Htwice :
              answerTwice keys w w2 q q2 ag
              = ((Queued, Ignored), after (answerLocked w q) ag1,
                 ([StartAudio; Notify (state ag1)] ++ [StartAudio]
                  ++ trace (answerLocked w q) ag1)%list)).
    { unfold answerTwice, bind. rewrite Hfirst. cbv beta iota zeta.
      rewrite Hsecond. cbv beta iota zeta.
      rewrite (run_eta (answerLocked w q) ag1). cbv beta iota zeta.
      unfold ret. now rewrite !app_nil_r. }
    assert (Hone :
              answer keys w q ag
              = (Queued, after (answerLocked w q) ag1,
                 ([StartAudio; Notify (state ag1)]
                  ++ trace (answerLocked w q) ag1)%list)).
    { rewrite answer_start by assumption. unfold after at 2, trace at 1.
      unfold after at 2. rewrite Hfirst. reflexivity. }
    unfold result, after, trace. rewrite Htwice, Hone. cbn [fst snd].
    split; [reflexivity|]. split; [reflexivity|].
    rewrite !dispatches_app, answerLocked_dispatches. split; reflexivity.
Qed.

Lemma answer_while_loading_is_ignored_witness :
  answer Scenario.keys Scenario.world "and this?" Scenario.waiting
  = (Ignored, Scenario.waiting, [StartAudio])
  /\ dispatches
       (trace (answerTwice Scenario.keys Scenario.world Scenario.offline
                 "what is this?" "and this?")
          (after (addPhoto [Scenario.photo]) Scenario.local))
     = 1%nat.
Proof.
  split.
  - apply (answer_while_loading_is_ignored
             Scenario.keys Scenario.world Scenario.offline
             "and this?" "what is this?" Scenario.waiting);
      reflexivity.
  - apply (answer_while_loading_is_ignored
             Scenario.keys Scenario.world Scenario.offline
             "what is this?" "and this?"
             (after (addPhoto [Scenario.photo]) Scenario.local));
      reflexivity.
Defined.

(** C7 as stated fails in two ways.  The configuration check comes before
    the loading check: when the backend was switched to one without
    credentials while a query is in flight, a call of [answer] writes the
    error field and publishes the state.  And two calls back to back on a
    session without photos dispatch to no backend at all. *)
Lemma answer_while_loading_as_stated_fails :
  (AgentState.loading (state Scenario.switched) = true
   /\ AgentState.error (state Scenario.switched) = None
   /\ AgentState.error
        (state (after (answer Scenario.keys Scenario.world "and this?")
                  Scenario.switched))
      = Some "Groq API key not configured. Please add EXPO_PUBLIC_GROQ_API_KEY to your .env file."
   /\ after (answer Scenario.keys Scenario.world "and this?") Scenario.switched
      <> Scenario.switched)
  /\ (result (answerTwice Scenario.keys Scenario.world Scenario.world
                "what is this?" "and this?") Scenario.local
      = (Queued, Ignored)
      /\ dispatches
           (trace (answerTwice Scenario.keys Scenario.world Scenario.world
                     "what is this?" "and this?") Scenario.local)
         <> 1%nat).
Proof.
  repeat split; try reflexivity; vm_compute; congruence.
Qed.

(** C9 (as amended).  A call of [answer] with a configured backend, made
    while the session is not loading and holds no photo, sets the answer
    field to the fixed advisory message, leaves the error field unset and
    the loading flag false, and neither enters the backend switch nor calls
    a backend.  The locked part of [answer] does so on its own whenever it
    finds no photo, whatever the state is by then. *)
Theorem answer_without_photos_advises :
  forall (keys : Keys) (w : World) (q : string) (ag : agent),
    photos ag = [] ->
    (configured (checkModelConfiguration keys (state ag)) = true ->
     AgentState.loading (state ag) = false ->
     result (answer keys w q) ag = Queued
     /\ AgentState.answer (state (after (answer keys w q) ag))
        = Some "I don't see any photos yet. Please take some photos first and then ask your question."
     /\ AgentState.error (state (after (answer keys w q) ag)) = None
     /\ AgentState.loading (state (after (answer keys w q) ag)) = false
     /\ backendCalls (trace (answer keys w q) ag) = [])
    /\ (AgentState.answer (state (after (answerLocked w q) ag))
        = Some "I don't see any photos yet. Please take some photos first and then ask your question."
        /\ AgentState.error (state (after (answerLocked w q) ag)) = None
        /\ backendCalls (trace (answerLocked w q) ag) = []).
Proof.
  intros keys w q ag Hnone. split.
  - intros Hcfg Hload. unfold result, after, trace.
    rewrite answer_start by assumption. cbn [fst snd].
    unfold after, trace.
    rewrite answerSync_start by assumption. cbn [fst snd].
    rewrite answerLocked_empty by assumption. cbn [fst snd state].
    now repeat split.
  - unfold after, trace. rewrite answerLocked_empty by assumption.
    now repeat split.
Qed.

Lemma answer_without_photos_advises_witness :
  AgentState.answer
    (state (after (answer Scenario.keys Scenario.world "what is this?") fresh))
  = Some "I don't see any photos yet. Please take some photos first and then ask your question."
  /\ AgentState.error
       (state (after (answer Scenario.keys Scenario.world "what is this?") fresh))
     = None.
Proof.
  split;
    apply (proj1 (answer_without_photos_advises
                    Scenario.keys Scenario.world "what is this?" fresh
                    eq_refl));
    reflexivity.
Defined.

(** C9 as stated fails: with a configured backend and no photo, a call of
    [answer] made while an earlier query is in flight is ignored, and the
    answer field is not set. *)
Lemma answer_without_photos_ignored_while_loading :
  configured (checkModelConfiguration Scenario.keys (state Scenario.waiting))
  = true
  /\ photos Scenario.waiting = []
  /\ AgentState.loading (state Scenario.waiting) = true
  /\ result (answer Scenario.keys Scenario.world "and this?") Scenario.waiting
     = Ignored
  /\ AgentState.answer
       (state (after (answer Scenario.keys Scenario.world "and this?")
                 Scenario.waiting))
     = None
  /\ AgentState.answer
       (state (after (answer Scenario.keys Scenario.world "and this?")
                 Scenario.waiting))
     <> Some "I don't see any photos yet. Please take some photos first and then ask your question.".
Proof.
  repeat split; try reflexivity. vm_compute. congruence.
Qed.

(** C10.  With the model ['ollama-moondream'] selected, the configuration
    check answers [{ configured: true, errorMessage: undefined }] whatever
    the keys and the rest of the state are, and a call of [answer] does not
    take the configuration branch. *)
Theorem ollama_is_always_configured :
  forall (keys : Keys) (ag : agent),
    AgentState.selectedModel (state ag) = ollama_moondream ->
    checkModelConfiguration keys (state ag)
    = {| configured := true; errorMessage := None |}
    /\ result (answerSync keys) ag <> ConfigurationError
    /\ (forall (w : World) (q : string),
           result (answer keys w q) ag <> ConfigurationError).
Proof.
  intros keys ag Hmodel.
  assert (Hcheck : checkModelConfiguration keys (state ag)
                   = {| configured := true; errorMessage := None |})
    by (unfold checkModelConfiguration; now rewrite Hmodel).
  assert (Hsync : result (answerSync keys) ag <> ConfigurationError).
  { unfold result.
    destruct (AgentState.loading (state ag)) eqn:Hload.
    - rewrite answerSync_loading; [discriminate|now rewrite Hcheck|assumption].
    - rewrite answerSync_start; [discriminate|now rewrite Hcheck|assumption]. }
  split; [exact Hcheck|]. split; [exact Hsync|].
  intros w q. now rewrite answer_result.
Qed.

Lemma ollama_is_always_configured_witness :
  checkModelConfiguration {| openai := None; groq := None |}
    (state Scenario.local)
  = {| configured := true; errorMessage := None |}.
Proof.
  apply (ollama_is_always_configured {| openai := None; groq := None |}
           Scenario.local).
  reflexivity.
Defined.

End AgentClaims.

(* ------------------------------------------------------------------ *)
(** * Further properties of the reassembler and of the listener *)

Section ReassemblerMore.

Import Reassembler.

Implicit Types (st : State) (d e : bytes) (ds : list bytes) (cs : list Chunk).

Lemma onChunk_photo st id d photo :
  snd (onChunk st id d) = Some photo ->
  id = None /\ previousChunk st <> -1 /\ photo = buffer st /\ photo <> [].
Proof.
  unfold onChunk, branch.
  destruct (Z.eqb_spec (previousChunk st) (-1)) as [Hidle|Hmid].
  - destruct id as [i|]; [destruct (i =? 0)|]; discriminate.
  - destruct id as [i|].
    + destruct (negb (i =? previousChunk st + 1)); discriminate.
    + cbn [snd]. destruct (buffer st) as [|b bs] eqn:Hbuf; [discriminate|].
      cbn. intros [= <-]. repeat split; trivial. discriminate.
Qed.

(** X1.  A photo only comes out on END during a transfer; it is exactly the
    buffer accumulated so far, it is never empty, and the reassembler is
    idle afterwards.  Hence no stream of records makes the reassembler emit
    an empty photo. *)
Theorem emitted_photos_are_nonempty_buffers :
  (forall st id d photo,
      snd (onChunk st id d) = Some photo ->
      id = None
      /\ previousChunk st <> -1
      /\ photo = buffer st
      /\ photo <> []
      /\ previousChunk (fst (onChunk st id d)) = -1)
  /\ (forall cs st, Forall (fun photo => photo <> []) (snd (feed st cs))).
Proof.
  split.
  - intros st id d photo Hphoto.
    destruct (onChunk_photo st id d photo Hphoto) as (-> & Hmid & Hbuf & Hne).
    repeat split; trivial.
    rewrite onChunk_end by assumption. reflexivity.
  - induction cs as [|[id d] cs IH]; intros st; [constructor|].
    rewrite feed_cons. cbn [snd]. apply Forall_app. split; [|apply IH].
    destruct (snd (onChunk st id d)) as [photo|] eqn:Hphoto; [|constructor].
    constructor; [|constructor].
    now destruct (onChunk_photo st id d photo Hphoto) as (_ & _ & _ & Hne).
Qed.

Lemma emitted_photos_are_nonempty_buffers_witness :
  snd (onChunk {| previousChunk := 1; buffer := [x0a; x0b] |} None [])
  = Some [x0a; x0b]
  /\ previousChunk
       (fst (onChunk {| previousChunk := 1; buffer := [x0a; x0b] |} None []))
     = -1.
Proof.
  split; [reflexivity|].
  apply (proj1 emitted_photos_are_nonempty_buffers
           {| previousChunk := 1; buffer := [x0a; x0b] |} None [] [x0a; x0b]).
  reflexivity.
Defined.


Lemma feed_transfer_idle st d0 ds e :
  previousChunk st = -1 ->
  d0 ++ List.concat ds <> [] ->
  feed st (transfer d0 ds e)
  = ({| previousChunk := -1; buffer := d0 ++ List.concat ds |},
     [d0 ++ List.concat ds]).
Proof.
  intros Hidle Hne. unfold transfer.
  rewrite feed_cons, onChunk_idle_start by assumption.
  cbn [fst snd emitted app].
  pose proof (feed_numbered ds {| previousChunk := 0; buffer := d0 |}) as Hdata.
  cbn [previousChunk buffer] in Hdata. change (0 + 1) with 1 in Hdata.
  rewrite feed_app, Hdata by lia. cbn [fst snd app].
  rewrite feed_cons, onChunk_end by (simpl; lia).
  cbn [fst snd buffer feed].
  destruct (d0 ++ List.concat ds) eqn:Hbuf; [congruence|reflexivity].
Qed.

(** X2.  Whatever the stream, the photos that come out are at most as many
    as the END records, and at most as many as the START records, plus one
    when the stream begins in the middle of a transfer. *)
Theorem photos_bounded_by_ends_and_starts :
  forall cs st,
    (List.length (snd (feed st cs)) <= Stream.ends cs)%nat
    /\ (List.length (snd (feed st cs)) <= Stream.starts cs + Stream.inProgress st)%nat.
Proof.
  unfold Stream.ends, Stream.starts, Stream.inProgress.
  induction cs as [|[id d] cs IH]; intros st; [cbn; lia|].
  rewrite feed_cons. cbn [snd filter]. rewrite length_app.
  destruct (IH (fst (onChunk st id d))) as [IHends IHstarts].
  destruct (Z.eqb_spec (previousChunk st) (-1)) as [Hidle|Hmid].
  - destruct id as [i|].
    + destruct (Z.eq_dec i 0) as [->|Hi].
      * rewrite onChunk_idle_start in * by assumption.
        cbn [fst snd emitted List.length Listener.isEnd isStart] in *.
        cbn in IHstarts |- *. lia.
      * rewrite onChunk_idle_other in * by (trivial; congruence).
        cbn [fst snd emitted List.length Listener.isEnd isStart] in *.
        destruct (Z.eqb_spec i 0); [contradiction|].
        destruct (Z.eqb_spec (previousChunk st) (-1)); [|contradiction].
        cbn. lia.
    + rewrite onChunk_idle_other in * by (trivial; congruence).
      cbn [fst snd emitted List.length Listener.isEnd isStart] in *.
      destruct (Z.eqb_spec (previousChunk st) (-1)); [|contradiction].
      cbn. lia.
  - destruct id as [i|].
    + assert (Hnone : snd (onChunk st (Some i) d) = None).
      { destruct (snd (onChunk st (Some i) d)) as [photo|] eqn:Hphoto; trivial.
        now destruct (onChunk_photo _ _ _ _ Hphoto). }
      rewrite Hnone. cbn [emitted List.length Listener.isEnd fst].
      destruct (previousChunk (fst (onChunk st (Some i) d)) =? -1),
               (isStart (Some i, d));
        cbn [List.length] in *; lia.
    + rewrite onChunk_end in * by assumption.
      cbn [fst snd previousChunk Listener.isEnd isStart] in *.
      change (-1 =? -1) with true in IHstarts. cbn iota in IHstarts.
      destruct (buffer st); cbn [emitted List.length] in *; lia.
Qed.

(** X3.  Photos sent one after the other, each as a well-formed transfer
    with some byte in it, all come out, in order and each exactly once,
    when the first START finds the reassembler idle. *)
Theorem consecutive_transfers_deliver_in_order :
  forall (cuts : list Stream.Cut) st,
    previousChunk st = -1 ->
    Forall (fun c => Stream.content c <> []) cuts ->
    snd (feed st (flat_map Stream.records cuts)) = map Stream.content cuts.
Proof.
  induction cuts as [|[d0 ds] cuts IH]; intros st Hidle Hall; [reflexivity|].
  inversion Hall as [|c cuts' Hne Hrest]; subst.
  cbn [flat_map map].
  change (Stream.records (d0, ds)) with (transfer d0 ds []).
  change (Stream.content (d0, ds)) with (d0 ++ List.concat ds) in *.
  rewrite feed_app, feed_transfer_idle by assumption. cbn [fst snd app].
  f_equal. now apply IH.
Qed.

Lemma consecutive_transfers_deliver_in_order_witness :
  snd (feed initial
         (flat_map Stream.records [([x01], [[x02]; [x03]]); ([], [[x04]])]))
  = [[x01; x02; x03]; [x04]].
Proof.
  apply (consecutive_transfers_deliver_in_order
           [([x01], [[x02]; [x03]]); ([], [[x04]])] initial).
  - reflexivity.
  - repeat constructor; vm_compute; congruence.
Defined.

End ReassemblerMore.

Section ListenerFacts.

Import Reassembler Listener.

Implicit Types (st : State) (b : byte) (rest array : bytes).

Lemma toZ_range b : 0 <= toZ b <= 255.
Proof.
  unfold toZ. pose proof (Byte.to_N_bounded b). lia.
Qed.

Lemma toZ_ff b : toZ b = 255 -> b = xff.
Proof.
  unfold toZ. intros Hb.
  assert (Hn : Byte.to_N b = 255%N) by lia.
  pose proof (Byte.of_to_N b) as Hof. rewrite Hn in Hof.
  cbv in Hof. congruence.
Qed.

Lemma toZ_byteOf z : 0 <= z < 256 -> toZ (byteOf z) = z.
Proof.
  intros Hz. unfold toZ, byteOf.
  destruct (Byte.of_N (Z.to_N z)) as [b|] eqn:Hof.
  - apply Byte.to_of_N in Hof. lia.
  - apply Byte.of_N_None_iff in Hof. lia.
Qed.

Lemma slice_payload {A : Type} (x y : A) (l : list A) :
  PhotoWindow.slice 2 (x :: y :: l) = l.
Proof.
  unfold PhotoWindow.slice. cbn [Z.ltb Z.compare List.length].
  replace (Z.to_nat _) with 2%nat by lia. reflexivity.
Qed.

Lemma listener_two st b0 b1 rest :
  listener st (b0 :: b1 :: rest)
  = if (toZ b0 =? 255) && (toZ b1 =? 255) then onChunk st None []
    else onChunk st (Some (toZ b0 + 256 * toZ b1)) rest.
Proof.
  unfold listener. cbn [index nth_error isFF].
  destruct ((toZ b0 =? 255) && (toZ b1 =? 255)); [reflexivity|].
  now rewrite slice_payload, Z.shiftl_mul_pow2, Z.mul_comm by lia.
Qed.

Lemma onChunk_end_any st e : onChunk st None e = onChunk st None [].
Proof.
  unfold onChunk, branch. now destruct (previousChunk st =? -1).
Qed.

(** X4.  How a notification is read.  Two leading bytes [0xFF 0xFF] make it
    the END marker, whatever follows them.  Otherwise the first two bytes
    are the sequence id, low byte first, which is therefore below 65535,
    and the rest is the payload.  A notification of one byte is a data
    record with that byte as id and no payload, the lone byte [0xFF]
    included (id 255, not END); an empty notification is left aside while
    idle and drops the photo during a transfer. *)
Theorem listener_reads_notification :
  forall st b0 b1 rest,
    (b0 = xff /\ b1 = xff ->
     listener st (b0 :: b1 :: rest) = onChunk st None [])
    /\ (~ (b0 = xff /\ b1 = xff) ->
        listener st (b0 :: b1 :: rest)
        = onChunk st (Some (toZ b0 + 256 * toZ b1)) rest
        /\ 0 <= toZ b0 + 256 * toZ b1 < 65535)
    /\ listener st [b0] = onChunk st (Some (toZ b0)) []
    /\ listener st []
       = (if previousChunk st =? -1 then st else dropped, None).
Proof.
  intros st b0 b1 rest. split; [|split; [|split]].
  - intros [-> ->]. reflexivity.
  - intros Hnot. rewrite listener_two.
    pose proof (toZ_range b0) as Hr0. pose proof (toZ_range b1) as Hr1.
    destruct (Z.eqb_spec (toZ b0) 255) as [H0|H0];
      [destruct (Z.eqb_spec (toZ b1) 255) as [H1|H1]|]; cbn [andb].
    + exfalso. apply Hnot. split; now apply toZ_ff.
    + split; [reflexivity|lia].
    + split; [reflexivity|lia].
  - unfold listener. cbn [index nth_error isFF andb].
    rewrite andb_false_r. now rewrite Z.add_0_r.
  - unfold listener, onChunkNaN. cbn [index nth_error isFF andb].
    now destruct (previousChunk st =? -1).
Qed.

Lemma listener_reads_notification_witness :
  listener initial [x00; x00; x0a; x0b] = onChunk initial (Some 0) [x0a; x0b]
  /\ listener {| previousChunk := 0; buffer := [x0a] |} [xff; xff; x0c]
     = ({| previousChunk := -1; buffer := [x0a] |}, Some [x0a]).
Proof.
  split.
  - apply (proj1 (proj2 (listener_reads_notification initial x00 x00 [x0a; x0b]))).
    intros [H _]. discriminate H.
  - apply (proj1 (listener_reads_notification
                    {| previousChunk := 0; buffer := [x0a] |} xff xff [x0c])).
    split; reflexivity.
Defined.

Lemma listener_wire st (c : Chunk) :
  inRange c = true -> listener st (wire c) = onChunk st (fst c) (snd c).
Proof.
  destruct c as [[id|] payload]; unfold inRange, wire; cbn [fst snd].
  - intros Hrange. apply andb_true_iff in Hrange as [Hlo Hhi].
    apply Z.leb_le in Hlo. apply Z.ltb_lt in Hhi.
    rewrite listener_two, !toZ_byteOf
      by (Z.div_mod_to_equations; lia).
    destruct (Z.eqb_spec (id mod 256) 255) as [H0|H0];
      [destruct (Z.eqb_spec (id / 256) 255) as [H1|H1]|]; cbn [andb].
    + exfalso. Z.div_mod_to_equations. lia.
    + f_equal. f_equal. Z.div_mod_to_equations. lia.
    + f_equal. f_equal. Z.div_mod_to_equations. lia.
  - intros _. symmetry. apply onChunk_end_any.
Qed.

(** X5.  Records sent on the wire -- the id on two bytes, low byte first,
    for an id from 0 to 65534, or [0xFF 0xFF] for END -- are handled by the
    listener exactly as [onChunk] handles the records themselves: same
    photos, same state. *)
Theorem listen_wire_agrees_with_feed :
  forall (cs : list Chunk) st,
    forallb inRange cs = true ->
    listen st (map wire cs) = feed st cs.
Proof.
  induction cs as [|c cs IH]; intros st Hrange; [reflexivity|].
  cbn [forallb] in Hrange. apply andb_true_iff in Hrange as [Hc Hcs].
  cbn [map listen]. rewrite (listener_wire st c Hc).
  destruct c as [id payload]. cbn [fst snd feed].
  destruct (onChunk st id payload) as [st1 photo].
  now rewrite IH.
Qed.

Lemma listen_wire_agrees_with_feed_witness :
  listen initial (map wire (transfer [x0a] [[x0b]; [x0c]] []))
  = ({| previousChunk := -1; buffer := [x0a; x0b; x0c] |}, [[x0a; x0b; x0c]]).
Proof.
  etransitivity.
  - apply (listen_wire_agrees_with_feed (transfer [x0a] [[x0b]; [x0c]] []) initial).
    reflexivity.
  - reflexivity.
Defined.

Lemma onChunk_previousChunk st id d :
  previousChunk (fst (onChunk st id d)) = -1
  \/ previousChunk (fst (onChunk st id d)) = previousChunk st
  \/ id = Some (previousChunk (fst (onChunk st id d))).
Proof.
  unfold onChunk, branch.
  destruct (previousChunk st =? -1); destruct id as [i|]; cbn; auto.
  - destruct (Z.eqb_spec i 0) as [->|_]; cbn; auto.
  - destruct (i =? previousChunk st + 1); cbn; auto.
Qed.

Lemma onChunk_previousChunk_bound st i d :
  -1 <= previousChunk st < 65535 ->
  0 <= i < 65535 ->
  -1 <= previousChunk (fst (onChunk st (Some i) d)) < 65535.
Proof.
  intros Hst Hi.
  destruct (onChunk_previousChunk st (Some i) d) as [H|[H|H]]; [lia|lia|].
  assert (i = previousChunk (fst (onChunk st (Some i) d))) by congruence.
  lia.
Qed.

Lemma listener_previousChunk st array :
  -1 <= previousChunk st < 65535 ->
  -1 <= previousChunk (fst (listener st array)) < 65535.
Proof.
  intros Hst. destruct array as [|b0 [|b1 rest]].
  - unfold listener, onChunkNaN. cbn [index nth_error isFF andb].
    destruct (previousChunk st =? -1); cbn; lia.
  - unfold listener. cbn [index nth_error isFF]. rewrite andb_false_r.
    pose proof (toZ_range b0) as Hr0.
    apply onChunk_previousChunk_bound; lia.
  - rewrite listener_two.
    pose proof (toZ_range b0) as Hr0. pose proof (toZ_range b1) as Hr1.
    destruct (Z.eqb_spec (toZ b0) 255) as [H0|H0];
      [destruct (Z.eqb_spec (toZ b1) 255) as [H1|H1]|]; cbn [andb].
    + destruct (onChunk_previousChunk st None []) as [H2|[H2|H2]];
        [lia|lia|discriminate].
    + apply onChunk_previousChunk_bound; lia.
    + apply onChunk_previousChunk_bound; lia.
Qed.

(** X6.  Whatever notifications arrive, the id of the last chunk accepted
    stays between 0 and 65534 (or is -1 when idle).  So a transfer that has
    reached chunk 65534 cannot go on: the next notification, whatever it
    holds, ends it or drops it. *)
Theorem transfer_spans_at_most_65535_chunks :
  (forall arrays,
      -1 <= previousChunk (fst (listen initial arrays)) < 65535)
  /\ (forall st array,
         previousChunk st = 65534 ->
         previousChunk (fst (listener st array)) = -1).
Proof.
  split.
  - assert (Hgen : forall arrays st,
               -1 <= previousChunk st < 65535 ->
               -1 <= previousChunk (fst (listen st arrays)) < 65535).
    { induction arrays as [|array arrays IH]; intros st Hst; [exact Hst|].
      cbn [listen].
      pose proof (listener_previousChunk st array Hst) as Hnext.
      destruct (listener st array) as [st1 photo]. cbn [fst] in Hnext.
      specialize (IH st1 Hnext). destruct (listen st1 arrays). exact IH. }
    intros arrays. apply Hgen. cbn. lia.
  - intros st array Hlast.
    assert (Hst : -1 <= previousChunk st < 65535) by lia.
    pose proof (listener_previousChunk st array Hst) as Hnext.
    destruct array as [|b0 [|b1 rest]].
    + unfold listener, onChunkNaN. cbn [index nth_error isFF andb].
      rewrite Hlast. reflexivity.
    + unfold listener in *. cbn [index nth_error isFF] in *.
      rewrite andb_false_r in *. pose proof (toZ_range b0) as Hr0.
      rewrite onChunk_mismatch by lia. reflexivity.
    + rewrite listener_two in *.
      pose proof (toZ_range b0) as Hr0. pose proof (toZ_range b1) as Hr1.
      destruct (Z.eqb_spec (toZ b0) 255) as [H0|H0];
        [destruct (Z.eqb_spec (toZ b1) 255) as [H1|H1]|]; cbn [andb] in *.
      * rewrite onChunk_end by lia. reflexivity.
      * rewrite onChunk_mismatch by lia. reflexivity.
      * rewrite onChunk_mismatch by lia. reflexivity.
Qed.

Lemma transfer_spans_at_most_65535_chunks_witness :
  previousChunk
    (fst (listener {| previousChunk := 65534; buffer := [x0a] |} [xfe; xff; x0b]))
  = -1.
Proof.
  apply (proj2 transfer_spans_at_most_65535_chunks
           {| previousChunk := 65534; buffer := [x0a] |} [xfe; xff; x0b]).
  reflexivity.
Defined.

End ListenerFacts.

(* ------------------------------------------------------------------ *)
(** * Further properties of the photo window and of the view *)

Section WindowMore.

Import PhotoWindow.

Context {A : Type}.

Implicit Types (l xs : list A) (x : A).

Lemma slice_last9 l : slice (-9) l = skipn (List.length l - 9) l.
Proof.
  unfold slice. cbn [Z.ltb Z.compare]. f_equal. lia.
Qed.

Lemma slice_from (k : nat) l :
  slice (Z.of_nat k) l = skipn k l.
Proof.
  unfold slice.
  destruct (Z.ltb_spec (Z.of_nat k) 0) as [Hneg|_]; [lia|].
  destruct (Nat.le_gt_cases k (List.length l)) as [Hle|Hgt].
  - f_equal. lia.
  - replace (Z.to_nat _) with (List.length l) by lia.
    now rewrite skipn_all, skipn_all2 by lia.
Qed.

Lemma window_last_ten xs : window xs = skipn (List.length xs - 10) xs.
Proof.
  induction xs as [|x xs IH] using rev_ind; [reflexivity|].
  unfold window in *. rewrite fold_left_app. cbn [fold_left].
  rewrite IH. unfold push. rewrite slice_last9, skipn_skipn, length_skipn.
  rewrite length_app, skipn_app. cbn [List.length].
  replace (List.length xs + 1 - 10 - List.length xs)%nat with 0%nat by lia.
  cbn [skipn]. f_equal. f_equal. lia.
Qed.

Lemma window_holds_last_ten_length xs :
  List.length (window xs) = Nat.min (List.length xs) 10.
Proof. rewrite window_last_ten, length_skipn. lia. Qed.

(** X7.  After any number of arrivals the window holds the last ten photos
    that arrived (all of them when fewer than ten arrived), in arrival
    order. *)
Theorem window_holds_last_ten :
  forall xs,
    window xs = skipn (List.length xs - 10) xs
    /\ List.length (window xs) = Nat.min (List.length xs) 10.
Proof.
  intros xs. rewrite window_last_ten. split; [reflexivity|].
  rewrite length_skipn. lia.
Qed.

Lemma latestPhoto_snoc l x : View.latestPhoto (l ++ [x]) = Some x.
Proof.
  unfold View.latestPhoto. rewrite length_app. cbn [List.length].
  replace (List.length l + 1)%nat with (S (List.length l)) by lia.
  cbn [Nat.eqb]. rewrite nth_error_app2 by lia.
  replace (S (List.length l) - 1 - List.length l)%nat with 0%nat by lia.
  reflexivity.
Qed.

(** X8.  The photo shown by the view, [photos[photos.length - 1]], is the
    photo that arrived last, and there is none before the first arrival. *)
Theorem view_shows_latest_arrival :
  forall xs x,
    View.latestPhoto (window (xs ++ [x])) = Some x
    /\ View.latestPhoto (window ([] : list A)) = None.
Proof.
  intros xs x. split; [|reflexivity].
  unfold window. rewrite fold_left_app. cbn [fold_left]. unfold push.
  apply latestPhoto_snoc.
Qed.

End WindowMore.

(* ------------------------------------------------------------------ *)
(** * From the window to the agent: the job of the scheduler *)

Section SyncFacts.

Import Agent View.

Local Open Scope eff_scope.

Implicit Types (ag : agent) (s : Session) (batch : list Photo).

Lemma forEach_pushPhoto batch : forall ag,
  forEach pushPhoto batch ag
  = (tt,
     {| photos := photos ag ++ batch; state := state ag;
        stateCopy := stateCopy ag |},
     []).
Proof.
  induction batch as [|p batch IH]; intros ag; cbn [forEach].
  - unfold ret. rewrite app_nil_r. now destruct ag.
  - unfold bind. unfold pushPhoto at 1. rewrite IH. cbn [photos state stateCopy].
    now rewrite <- app_assoc.
Qed.

Lemma addPhoto_run batch ag :
  addPhoto batch ag
  = (tt,
     {| photos := photos ag ++ batch;
        state := AgentState.setLastDescription
                   (Some ("Received " ++ Js.ofNat (List.length batch)
                          ++ " new photo(s)")%string)
                   (state ag);
        stateCopy := AgentState.setLastDescription
                       (Some ("Received " ++ Js.ofNat (List.length batch)
                              ++ " new photo(s)")%string)
                       (state ag) |},
     [Notify (AgentState.setLastDescription
                (Some ("Received " ++ Js.ofNat (List.length batch)
                       ++ " new photo(s)")%string)
                (state ag))]).
Proof.
  unfold addPhoto, bind. rewrite forEach_pushPhoto. reflexivity.
Qed.

Lemma addPhoto_photos batch ag :
  photos (after (addPhoto batch) ag) = photos ag ++ batch.
Proof. unfold after. now rewrite addPhoto_run. Qed.


Lemma synced_tick s t : synced s -> synced (tick s t).
Proof.
  intros (Hwin & Hproc & Hlen). destruct t as [x|]; unfold synced.
  - cbn [tick arrive window processed agentOf].
    rewrite push_length. repeat split; trivial; lia.
  - cbn [tick]. unfold runJob, job.
    destruct (Nat.ltb_spec (processed s) (List.length (window s))) as [Hnew|Hold];
      cbn [window processed agentOf].
    + rewrite addPhoto_photos, length_app, slice_from, length_skipn.
      repeat split; trivial; lia.
    + repeat split; trivial.
Qed.

Lemma synced_run ticks : forall s, synced s -> synced (run ticks s).
Proof.
  unfold run. induction ticks as [|t ticks IH]; intros s Hs; [exact Hs|].
  cbn [fold_left]. apply IH. now apply synced_tick.
Qed.

(** X9.  However arrivals and runs of the job are interleaved, the job
    passes at most ten photos to the agent in all: the agent holds as many
    photos as the counter of the job says, and the counter never exceeds
    ten.  Once it has reached ten, a run of the job passes nothing, whatever
    arrived in between. *)
Theorem job_passes_at_most_ten_photos :
  forall ticks,
    (List.length (photos (agentOf (run ticks start))) <= 10)%nat
    /\ List.length (photos (agentOf (run ticks start)))
       = processed (run ticks start)
    /\ (processed (run ticks start) = 10%nat ->
        forall more,
          photos (agentOf (run (ticks ++ more) start))
          = photos (agentOf (run ticks start))).
Proof.
  intros ticks.
  assert (Hstart : synced start) by (unfold synced; cbn; lia).
  pose proof (synced_run ticks start Hstart) as (Hwin & Hproc & Hlen).
  split; [lia|]. split; [exact Hlen|].
  intros Hfull more. unfold run at 1. rewrite fold_left_app.
  fold (run ticks start). fold (run more (run ticks start)).
  assert (Hgen : forall more s,
             synced s -> processed s = 10%nat ->
             photos (agentOf (run more s)) = photos (agentOf s)).
  { clear. induction more as [|t more IH]; intros s Hs Hfull; [reflexivity|].
    unfold run. cbn [fold_left]. fold (run more (tick s t)).
    assert (Hsame : agentOf (tick s t) = agentOf s /\ processed (tick s t) = 10%nat).
    { destruct Hs as (Hwin & _ & _). destruct t as [x|]; [now split|].
      cbn [tick]. unfold runJob, job.
      destruct (Nat.ltb_spec (processed s) (List.length (window s))); [lia|].
      now split. }
    destruct Hsame as [Hag Hproc'].
    rewrite IH; [now rewrite Hag|now apply synced_tick|exact Hproc']. }
  apply Hgen; [now apply synced_run|exact Hfull].
Qed.

Lemma job_passes_at_most_ten_photos_witness :
  photos (agentOf (run (eager (repeat Scenario.photo 10)
                        ++ [Arrive [x01]; RunJob]) start))
  = photos (agentOf (run (eager (repeat Scenario.photo 10)) start)).
Proof.
  apply (proj2 (proj2 (job_passes_at_most_ten_photos
                         (eager (repeat Scenario.photo 10))))).
  reflexivity.
Defined.

Lemma eager_run xs :
  window (run (eager xs) start) = PhotoWindow.window xs
  /\ processed (run (eager xs) start) = Nat.min (List.length xs) 10
  /\ photos (agentOf (run (eager xs) start)) = firstn 10 xs.
Proof.
  induction xs as [|x xs IH] using rev_ind; [now repeat split|].
  destruct IH as (Hwin & Hproc & Hphotos).
  unfold eager, run in *. rewrite flat_map_app, fold_left_app.
  cbn [flat_map app fold_left tick].
  set (s := fold_left tick (flat_map (fun x => [Arrive x; RunJob]) xs) start) in *.
  assert (Hwin' : window (arrive x s) = PhotoWindow.window (xs ++ [x])).
  { cbn [arrive window]. rewrite Hwin. unfold PhotoWindow.window.
    now rewrite fold_left_app. }
  unfold runJob, job. rewrite Hwin'.
  pose proof (window_holds_last_ten_length (xs ++ [x])) as Hlen.
  rewrite length_app in Hlen. cbn [List.length] in Hlen.
  cbn [arrive processed agentOf]. rewrite Hproc.
  destruct (Nat.ltb_spec (Nat.min (List.length xs) 10)
              (List.length (PhotoWindow.window (xs ++ [x])))) as [Hnew|Hold];
    cbn [window processed agentOf].
  - split; [first [reflexivity|exact Hwin']|]. rewrite length_app. cbn [List.length].
    split; [lia|].
    rewrite addPhoto_photos, Hphotos, slice_from, window_last_ten.
    rewrite length_app. cbn [List.length].
    replace (List.length xs + 1 - 10)%nat with 0%nat by lia.
    replace (Nat.min (List.length xs) 10) with (List.length xs) by lia.
    cbn [skipn]. rewrite skipn_app, skipn_all, Nat.sub_diag. cbn [skipn app].
    rewrite !firstn_all2 by (rewrite ?length_app; cbn [List.length]; lia).
    reflexivity.
  - split; [first [reflexivity|exact Hwin']|]. rewrite length_app. cbn [List.length].
    split; [lia|].
    rewrite Hphotos, firstn_app.
    replace (10 - List.length xs)%nat with 0%nat by lia.
    cbn [firstn]. now rewrite app_nil_r.
Qed.

(** X10.  When the job runs after every arrival, the agent receives the
    first ten photos, in arrival order, and none of the later ones: from
    the eleventh photo on, the window stays at ten photos and the job finds
    nothing new. *)
Theorem agent_receives_first_ten_photos :
  forall xs : list Photo,
    photos (agentOf (run (eager xs) start)) = firstn 10 xs.
Proof.
  intros xs. apply eager_run.
Qed.

End SyncFacts.

(* ------------------------------------------------------------------ *)
(** * Further properties of the agent *)

Section AgentMore.

Import Agent Steps.

Local Open Scope eff_scope.

Implicit Types (ag : agent) (keys : Keys) (w : World) (q : string).

Lemma setModel_run model ag :
  setModel model ag
  = (tt,
     {| photos := photos ag;
        state := AgentState.setSelectedModel model (state ag);
        stateCopy := AgentState.setSelectedModel model (state ag) |},
     [Notify (AgentState.setSelectedModel model (state ag))]).
Proof. reflexivity. Qed.

(** What every step does to the fields of the agent. *)
Lemma step_cases keys ag (s : Step) :
  exists st',
    step keys ag s
    = {| photos := photos ag ++ List.concat (Props.batches [s]);
         state := st'; stateCopy := st' |}
    \/ (step keys ag s = ag /\ st' = state ag /\ Props.batches [s] = []).
Proof.
  destruct s as [batch|model| |w q]; cbn [step]; unfold after.
  - rewrite addPhoto_run. cbn [fst snd Props.batches flat_map List.concat app].
    rewrite app_nil_r. eexists. left. reflexivity.
  - rewrite setModel_run. cbn [fst snd Props.batches flat_map List.concat app].
    rewrite app_nil_r. eexists. left. reflexivity.
  - cbn [Props.batches flat_map List.concat app]. rewrite app_nil_r.
    destruct (configured (checkModelConfiguration keys (state ag))) eqn:Hcfg.
    + destruct (AgentState.loading (state ag)) eqn:Hload.
      * rewrite answerSync_loading by assumption. cbn [fst snd].
        exists (state ag). right. now repeat split.
      * rewrite answerSync_start by assumption. eexists. left. reflexivity.
    + rewrite answerSync_unconfigured by assumption. eexists. left. reflexivity.
  - cbn [Props.batches flat_map List.concat app]. rewrite app_nil_r.
    destruct (photos ag) as [|p ps] eqn:Hphotos.
    + rewrite answerLocked_empty by assumption. rewrite Hphotos.
      eexists. left. reflexivity.
    + rewrite answerLocked_dispatch by congruence. rewrite Hphotos.
      eexists. left. reflexivity.
Qed.

Lemma step_photos keys ag (s : Step) :
  photos (step keys ag s) = photos ag ++ List.concat (Props.batches [s]).
Proof.
  destruct (step_cases keys ag s) as (st' & [->|(-> & _ & ->)]);
    [reflexivity|].
  cbn [List.concat]. now rewrite app_nil_r.
Qed.

Lemma step_published keys ag (s : Step) :
  stateCopy ag = state ag ->
  stateCopy (step keys ag s) = state (step keys ag s).
Proof.
  intros Hcopy.
  destruct (step_cases keys ag s) as (st' & [->|(-> & _ & _)]);
    [reflexivity|exact Hcopy].
Qed.

Lemma step_apart keys ag (s : Step) :
  Props.apart (state ag) = true ->
  Props.apart (state (step keys ag s)) = true.
Proof.
  intros Hapart. destruct s as [batch|model| |w q]; cbn [step]; unfold after.
  - rewrite addPhoto_run. exact Hapart.
  - rewrite setModel_run. exact Hapart.
  - destruct (configured (checkModelConfiguration keys (state ag))) eqn:Hcfg.
    + destruct (AgentState.loading (state ag)) eqn:Hload.
      * rewrite answerSync_loading by assumption. exact Hapart.
      * rewrite answerSync_start by assumption. cbn [fst snd state].
        unfold Props.apart. cbn. now rewrite andb_false_r.
    + rewrite answerSync_unconfigured by assumption. reflexivity.
  - destruct (photos ag) as [|p ps] eqn:Hphotos.
    + rewrite answerLocked_empty by assumption. reflexivity.
    + rewrite answerLocked_dispatch by congruence. cbn [fst snd state].
      now destruct (result (dispatch w q) ag).
Qed.

(** X11.  Whatever the calls and however their parts interleave -- photos
    added, the model switched, [answer] called, the locked part of an
    [answer] run -- the answer and the error are never both set, and the
    copy of the state given to the listeners is the state itself. *)
Theorem answer_and_error_never_both_set :
  forall keys (l : list Step),
    Props.apart (state (steps keys l fresh)) = true
    /\ stateCopy (steps keys l fresh) = state (steps keys l fresh).
Proof.
  intros keys l.
  assert (Hgen : forall l ag,
             Props.apart (state ag) = true /\ stateCopy ag = state ag ->
             Props.apart (state (steps keys l ag)) = true
             /\ stateCopy (steps keys l ag) = state (steps keys l ag)).
  { clear l. induction l as [|s l IH]; intros ag [Hapart Hcopy]; [now split|].
    unfold steps. cbn [fold_left]. apply IH. split.
    - now apply step_apart.
    - now apply step_published. }
  apply Hgen. now split.
Qed.

(** X12.  The photos of the agent only grow: after any steps they are the
    photos held before followed by the batches given to [addPhoto], in call
    order.  Neither [setModel] nor any part of [answer] adds, removes or
    reorders a photo, and nothing caps their number. *)
Theorem photos_only_grow :
  forall keys (l : list Step) ag,
    photos (steps keys l ag) = photos ag ++ List.concat (Props.batches l).
Proof.
  intros keys l. induction l as [|s l IH]; intros ag.
  - cbn. now rewrite app_nil_r.
  - unfold steps. cbn [fold_left]. fold (steps keys l (step keys ag s)).
    rewrite IH, step_photos.
    change (s :: l) with ([s] ++ l). unfold Props.batches.
    rewrite flat_map_app, concat_app, app_assoc. reflexivity.
Qed.

Lemma call_loading keys ag (c : Call) :
  AgentState.loading (state ag) = false ->
  AgentState.loading (state (call keys ag c)) = false.
Proof.
  intros Hload. destruct c as [batch|model|w q]; cbn [call]; unfold after.
  - rewrite addPhoto_run. exact Hload.
  - rewrite setModel_run. exact Hload.
  - destruct (configured (checkModelConfiguration keys (state ag))) eqn:Hcfg.
    + rewrite answer_start by assumption. cbn [fst snd].
      apply answerLocked_exactlyOne.
    + rewrite answer_unconfigured, answerSync_unconfigured by assumption.
      exact Hload.
Qed.

(** X13.  When every call runs to its end before the next one is made, the
    session is never left loading, whatever the backends answered or
    however they failed; so the next question is never ignored. *)
Theorem completed_calls_leave_session_usable :
  forall keys (l : list Call),
    AgentState.loading (state (calls keys l fresh)) = false
    /\ (forall w q, result (answer keys w q) (calls keys l fresh) <> Ignored).
Proof.
  intros keys l.
  assert (Hgen : forall l ag,
             AgentState.loading (state ag) = false ->
             AgentState.loading (state (calls keys l ag)) = false).
  { clear l. induction l as [|c l IH]; intros ag Hload; [exact Hload|].
    unfold calls. cbn [fold_left]. apply IH. now apply call_loading. }
  assert (Hload : AgentState.loading (state (calls keys l fresh)) = false)
    by now apply Hgen.
  split; [exact Hload|].
  intros w q. rewrite answer_result. unfold result.
  destruct (configured (checkModelConfiguration keys
                          (state (calls keys l fresh)))) eqn:Hcfg.
  - rewrite answerSync_start by assumption. discriminate.
  - rewrite answerSync_unconfigured by assumption. discriminate.
Qed.

End AgentMore.

(* ------------------------------------------------------------------ *)
(** * The configuration check and the backends *)

Section ConfigurationFacts.

Import Agent.

Local Open Scope string_scope.

Lemma trimEnd_empty (s : string) :
  String.eqb (Js.trimEnd s) "" = forallb Js.isWhiteSpace (list_ascii_of_string s).
Proof.
  induction s as [|c s IH]; [reflexivity|].
  cbn [Js.trimEnd list_ascii_of_string forallb].
  destruct (Js.trimEnd s) as [|c' t].
  - rewrite <- IH. destruct (Js.isWhiteSpace c); reflexivity.
  - rewrite <- IH. cbn. now rewrite andb_false_r.
Qed.

Lemma trim_empty (s : string) :
  String.eqb (Js.trim s) "" = forallb Js.isWhiteSpace (list_ascii_of_string s).
Proof.
  unfold Js.trim. induction s as [|c s IH]; [reflexivity|].
  cbn [Js.trimStart list_ascii_of_string forallb].
  destruct (Js.isWhiteSpace c) eqn:Hc.
  - exact IH.
  - rewrite trimEnd_empty. cbn [list_ascii_of_string forallb]. now rewrite Hc.
Qed.

Lemma missing_blank (key : option string) : missing key = Props.blank key.
Proof.
  destruct key as [s|]; [|reflexivity].
  unfold missing, Props.blank. rewrite trim_empty.
  destruct s; reflexivity.
Qed.

(** X14.  For keys made of code units below 256, the strings of this model,
    whose white space is TAB, LF, VT, FF, CR, SP and NBSP.  The
    configuration check depends on the key of the selected backend only: ['openai-vision'] is configured exactly when the OpenAI
    key has a character that is not white space, ['groq-llama'] exactly when
    the Groq key has one, and a key made of blanks counts as absent.  An
    error message comes with the verdict exactly when it is negative. *)
Theorem configured_iff_key_not_blank :
  forall (keys : Keys) (st : AgentState.t),
    configured (checkModelConfiguration keys st)
    = match AgentState.selectedModel st with
      | openai_vision => negb (Props.blank (openai keys))
      | ollama_moondream => true
      | groq_llama => negb (Props.blank (groq keys))
      end
    /\ AgentState.isSet (errorMessage (checkModelConfiguration keys st))
       = negb (configured (checkModelConfiguration keys st)).
Proof.
  intros keys st. unfold checkModelConfiguration.
  rewrite <- !missing_blank.
  destruct (AgentState.selectedModel st);
    [destruct (missing (openai keys))| |destruct (missing (groq keys))];
    now split.
Qed.

Lemma rethrow_status (z : Z) :
  OpenAI.rethrow true (Some z)
  = if (z =? 401)%Z then
      Rejected (JsError "Invalid OpenAI API key. Please check your .env file.")
    else if (z =? 429)%Z then
      Rejected (JsError "OpenAI rate limit exceeded. Please try again later.")
    else if (z =? 402)%Z then
      Rejected (JsError "OpenAI billing issue. Please check your account credits.")
    else
      Rejected (JsError "Failed to answer question with OpenAI Vision. Please try again.").
Proof.
  destruct z as [|p|p]; try reflexivity.
  do 10 (try (destruct p as [p|p|]; try reflexivity)).
Qed.

(** X15.  [answerQuestionWithImages] resolves only with the content of a
    response, and never with an empty one; every failure, a response
    without content included, is rejected with an [Error] carrying one of
    four messages, chosen by the status of the response alone. *)
Theorem openai_outcomes :
  forall post : OpenAI.AxiosResult,
    match OpenAI.answerQuestionWithImages post with
    | Resolved content =>
        post = OpenAI.Response (Some content) /\ content <> ""
    | Rejected reason =>
        (post = OpenAI.AxiosError (Some 401%Z) /\
         reason = JsError "Invalid OpenAI API key. Please check your .env file.")
        \/ (post = OpenAI.AxiosError (Some 429%Z) /\
            reason = JsError "OpenAI rate limit exceeded. Please try again later.")
        \/ (post = OpenAI.AxiosError (Some 402%Z) /\
            reason = JsError "OpenAI billing issue. Please check your account credits.")
        \/ (post <> OpenAI.AxiosError (Some 401%Z) /\
            post <> OpenAI.AxiosError (Some 429%Z) /\
            post <> OpenAI.AxiosError (Some 402%Z) /\
            reason = JsError "Failed to answer question with OpenAI Vision. Please try again.")
    end.
Proof.
  intros [[content|]|status|]; unfold OpenAI.answerQuestionWithImages.
  - destruct (String.eqb_spec content "") as [->|Hne].
    + cbn. do 3 right. repeat split; discriminate.
    + now split.
  - cbn. do 3 right. repeat split; discriminate.
  - destruct status as [z|]; [|cbn; do 3 right; repeat split; discriminate].
    rewrite rethrow_status.
    destruct (Z.eqb_spec z 401) as [->|H401]; [left; now split|].
    destruct (Z.eqb_spec z 429) as [->|H429]; [right; left; now split|].
    destruct (Z.eqb_spec z 402) as [->|H402]; [right; right; left; now split|].
    do 3 right. repeat split; congruence.
  - cbn. do 3 right. repeat split; discriminate.
Qed.

End ConfigurationFacts.

Section BackendFacts.

Import Agent.

Local Open Scope eff_scope.
Local Open Scope string_scope.

Implicit Types (ag : agent) (w : World) (q : string).

Lemma dispatch_openai w q ag :
  AgentState.selectedModel (state ag) = openai_vision ->
  dispatch w q ag
  = (OpenAI.answerQuestionWithImages (axiosPost w), ag,
     [Dispatch openai_vision; OpenAIRequest q (photos ag)]).
Proof.
  intros Hmodel. unfold dispatch, bind, getState, emit.
  rewrite Hmodel. reflexivity.
Qed.

Lemma dispatch_groq w q ag :
  AgentState.selectedModel (state ag) = groq_llama ->
  dispatch w q ag
  = (groqRequest w, ag,
     [Dispatch groq_llama;
      GroqRequest
        ("You are a smart AI that needs to answer user's questions. The user has taken "
         ++ Js.ofNat (List.length (photos ag))
         ++ " photos but I can only analyze text. Please provide a helpful response based on the question: "
         ++ q)
        "I can see you have photos but I'm currently limited to text analysis. Please describe what you see and I'll help you with your question."]).
Proof.
  intros Hmodel. unfold dispatch, bind, getState, emit.
  rewrite Hmodel. reflexivity.
Qed.

Lemma dispatch_ollama w q ag :
  AgentState.selectedModel (state ag) = ollama_moondream ->
  dispatch w q ag
  = (result (ollama w q) ag, ag,
     Dispatch ollama_moondream :: trace (ollama w q) ag).
Proof.
  intros Hmodel. unfold dispatch, bind, getState, emit.
  rewrite Hmodel. cbv beta iota zeta.
  rewrite (run_eta (ollama w q) ag), (readOnly_ollama w q ag). reflexivity.
Qed.

(** X16.  What the user reads when the OpenAI backend is selected and the
    session holds photos.  A response with content becomes the answer.  A
    401 gives the invalid-key message of the agent; a 429, a 402 and every
    other failure give the agent's prefix followed by the message thrown by
    [answerQuestionWithImages], the status code having gone from it. *)
Theorem openai_query_outcome :
  forall w q ag,
    AgentState.selectedModel (state ag) = openai_vision ->
    photos ag <> [] ->
    (forall content,
        axiosPost w = OpenAI.Response (Some content) -> content <> "" ->
        AgentState.answer (state (after (answerLocked w q) ag)) = Some content
        /\ AgentState.error (state (after (answerLocked w q) ag)) = None)
    /\ (axiosPost w = OpenAI.AxiosError (Some 401%Z) ->
        AgentState.error (state (after (answerLocked w q) ag))
        = Some "Failed to get response from openai-vision. Invalid API key. Please check your configuration.")
    /\ (axiosPost w = OpenAI.AxiosError (Some 429%Z) ->
        AgentState.error (state (after (answerLocked w q) ag))
        = Some "Failed to get response from openai-vision. OpenAI rate limit exceeded. Please try again later.")
    /\ (axiosPost w = OpenAI.AxiosError (Some 402%Z) ->
        AgentState.error (state (after (answerLocked w q) ag))
        = Some "Failed to get response from openai-vision. OpenAI billing issue. Please check your account credits.")
    /\ (OpenAI.answerQuestionWithImages (axiosPost w)
        = Rejected (JsError "Failed to answer question with OpenAI Vision. Please try again.") ->
        AgentState.error (state (after (answerLocked w q) ag))
        = Some "Failed to get response from openai-vision. Failed to answer question with OpenAI Vision. Please try again.").
Proof.
  intros w q ag Hmodel Hphotos. unfold after.
  rewrite answerLocked_dispatch by assumption. cbn [fst snd state].
  unfold result. rewrite dispatch_openai by assumption. cbn [fst].
  unfold settled, failed. rewrite Hmodel.
  split; [|split; [|split; [|split]]].
  - intros content -> Hne. unfold OpenAI.answerQuestionWithImages.
    destruct (String.eqb_spec content "") as [->|_]; [congruence|].
    now split.
  - intros ->. reflexivity.
  - intros ->. reflexivity.
  - intros ->. reflexivity.
  - intros ->. reflexivity.
Qed.

Lemma openai_query_outcome_witness :
  AgentState.error
    (state (after (answerLocked Scenario.offline "what is this?")
              (after (addPhoto [Scenario.photo]) fresh)))
  = Some "Failed to get response from openai-vision. Invalid API key. Please check your configuration.".
Proof.
  apply (proj1 (proj2 (openai_query_outcome Scenario.offline "what is this?"
                         (after (addPhoto [Scenario.photo]) fresh)
                         eq_refl
                         ltac:(vm_compute; congruence)))).
  reflexivity.
Defined.

Lemma ollama_probe_rejected w q ag e :
  ollamaInference w 0 = Rejected e ->
  ollama w q ag
  = (Rejected (ollamaError e), ag,
     [OllamaRequest moondream
        [ {| role := "user"; content := "Hello"; images := [] |} ]]).
Proof.
  intros Hprobe. unfold ollama, bind, callOllama, emit, ret.
  rewrite Hprobe. reflexivity.
Qed.

Lemma describe_trace w index photo ag :
  Props.imagesSent (trace (describe w index photo) ag) = [photo]
  /\ List.length (Props.requests (trace (describe w index photo) ag)) = 1%nat.
Proof. now split. Qed.

Lemma mapIndexed_describe_trace w (l : list Photo) : forall index ag,
  Props.imagesSent (trace (mapIndexed (describe w) index l) ag) = l
  /\ List.length (Props.requests (trace (mapIndexed (describe w) index l) ag))
     = List.length l.
Proof.
  induction l as [|photo l IH]; intros index ag; cbn [mapIndexed];
    [now split|].
  rewrite bind_trace, readOnly_describe, bind_trace.
  rewrite (readOnly_mapIndexed (describe w) (readOnly_describe w)).
  unfold Props.imagesSent, Props.requests in *.
  rewrite !flat_map_app, !filter_app, !length_app.
  destruct (IH (S index) ag) as [Himages Hcount].
  destruct (describe_trace w index photo ag) as [Himage Hone].
  unfold Props.imagesSent, Props.requests in Himage, Hone.
  rewrite Himages, Hcount, Himage, Hone. cbn. split; [now rewrite app_nil_r|lia].
Qed.

Lemma callOllama_result w n messages ag :
  result (callOllama w n messages) ag = ollamaInference w n.
Proof. reflexivity. Qed.

Lemma ollama_probe_resolved w q ag v :
  ollamaInference w 0 = Resolved v ->
  result (ollama w q) ag
  = match ollamaInference w (S (List.length (photos ag))) with
    | Resolved a => Resolved a
    | Rejected e => Rejected (ollamaError e)
    end
  /\ Props.imagesSent (trace (ollama w q) ag) = photos ag
  /\ List.length (Props.requests (trace (ollama w q) ag))
     = (List.length (photos ag) + 2)%nat.
Proof.
  intros Hprobe. unfold ollama.
  rewrite bind_result, bind_trace, readOnly_callOllama.
  rewrite callOllama_result, Hprobe. cbv beta iota.
  rewrite bind_result, bind_trace. cbn [result after trace getPhotos fst snd].
  rewrite bind_result, bind_trace.
  rewrite (readOnly_mapIndexed (describe w) (readOnly_describe w)).
  rewrite bind_result, bind_trace, readOnly_callOllama.
  rewrite !callOllama_result, !callOllama_trace.
  destruct (mapIndexed_describe_trace w (photos ag) 0 ag) as [Himages Hcount].
  unfold Props.imagesSent, Props.requests in *.
  rewrite !flat_map_app, !filter_app, !length_app, Himages, Hcount.
  destruct (ollamaInference w (S (List.length (photos ag)))) as [a|e];
    cbn; rewrite ?app_nil_r; (split; [reflexivity|split; [reflexivity|lia]]).
Qed.

(** X17.  With the local backend selected, a failure of the first call
    (the test that Ollama is reachable) stops the query there: that call is
    the only one made, no photo leaves the application, the answer is
    cleared and an error is set.  When the failure mentions [fetch] or
    [network], the error reads that Ollama is not running; when what was
    thrown is not an [Error], it reads that Ollama is not accessible. *)
Theorem ollama_unreachable_sends_no_photo :
  forall w q ag e,
    AgentState.selectedModel (state ag) = ollama_moondream ->
    photos ag <> [] ->
    ollamaInference w 0 = Rejected e ->
    List.length (Props.requests (trace (answerLocked w q) ag)) = 1%nat
    /\ Props.imagesSent (trace (answerLocked w q) ag) = []
    /\ AgentState.answer (state (after (answerLocked w q) ag)) = None
    /\ AgentState.error (state (after (answerLocked w q) ag))
       = Some (failureMessage ollama_moondream (ollamaError e))
    /\ (forall message,
           e = JsError message ->
           Js.includes message "fetch" || Js.includes message "network" = true ->
           AgentState.error (state (after (answerLocked w q) ag))
           = Some "Ollama is not running. Please start Ollama and ensure it's accessible at http://localhost:11434")
    /\ (e = NotAnError ->
        AgentState.error (state (after (answerLocked w q) ag))
        = Some "Ollama is not accessible. Please check if Ollama is running.").
Proof.
  intros w q ag e Hmodel Hphotos Hprobe. unfold after, trace.
  rewrite answerLocked_dispatch by assumption. cbn [fst snd state].
  unfold result, trace. rewrite dispatch_ollama by assumption. cbn [fst snd].
  unfold result, trace. rewrite (ollama_probe_rejected w q ag e Hprobe).
  cbn [fst snd]. unfold settled, failed. rewrite Hmodel.
  split; [reflexivity|]. split; [reflexivity|]. split; [reflexivity|].
  split; [reflexivity|]. split.
  - intros message -> Hnet. cbn [ollamaError AgentState.error AgentState.setLoading
                                   AgentState.setAnswer AgentState.setError].
    rewrite Hnet. reflexivity.
  - intros ->. reflexivity.
Qed.

Lemma ollama_unreachable_sends_no_photo_witness :
  AgentState.error
    (state (after (answerLocked Scenario.offline "what is this?")
              (after (addPhoto [Scenario.photo]) Scenario.local)))
  = Some "Ollama is not running. Please start Ollama and ensure it's accessible at http://localhost:11434".
Proof.
  apply (proj1 (proj2 (proj2 (proj2 (proj2
           (ollama_unreachable_sends_no_photo
              Scenario.offline "what is this?"
              (after (addPhoto [Scenario.photo]) Scenario.local)
              (JsError "fetch failed")
              eq_refl ltac:(vm_compute; congruence) eq_refl)))))
           "fetch failed" eq_refl).
  reflexivity.
Defined.

Lemma mapIndexed_describe_result w (l : list Photo) : forall index ag,
  result (mapIndexed (describe w) index l) ag
  = map (Props.described w) (seq index (List.length l)).
Proof.
  induction l as [|photo l IH]; intros index ag; cbn [mapIndexed]; [reflexivity|].
  rewrite bind_result, readOnly_describe, bind_result.
  rewrite (readOnly_mapIndexed (describe w) (readOnly_describe w)).
  cbn [ret result fst List.length seq map]. rewrite IH. reflexivity.
Qed.

Lemma ollama_final_request w q ag v :
  ollamaInference w 0 = Resolved v ->
  exists earlier,
    trace (ollama w q) ag
    = (earlier
       ++ [Props.finalRequest
             (Props.descriptions w (List.length (photos ag))) q])%list.
Proof.
  intros Hprobe. unfold ollama.
  rewrite bind_trace, readOnly_callOllama.
  rewrite callOllama_result, Hprobe. cbv beta iota.
  rewrite bind_trace. cbn [result after trace getPhotos fst snd].
  rewrite bind_trace.
  rewrite (readOnly_mapIndexed (describe w) (readOnly_describe w)).
  rewrite bind_trace, readOnly_callOllama.
  rewrite !callOllama_result, !callOllama_trace, mapIndexed_describe_result.
  exists (OllamaRequest moondream
            [ {| role := "user"; content := "Hello"; images := [] |} ]
          :: trace (mapIndexed (describe w) 0 (photos ag)) ag).
  unfold Props.finalRequest, Props.descriptions.
  destruct (ollamaInference w (S (List.length (photos ag)))) as [a|e];
    cbn [trace ret snd app]; rewrite ?app_nil_r; reflexivity.
Qed.

(** X18.  With the local backend selected and Ollama reachable, every photo
    of the session is sent exactly once, in order, in [photos.length + 2]
    calls; the outcome is that of the last call alone.  A description that
    fails does not fail the query: in the prompt of the last call, the line
    of each photo is ["Image n: "] followed by its description, or
    ["Image n: Could not analyze"] when the call for that photo failed. *)
Theorem ollama_image_failures_do_not_fail_query :
  forall w q ag v,
    AgentState.selectedModel (state ag) = ollama_moondream ->
    ollamaInference w 0 = Resolved v ->
    result (dispatch w q) ag
    = match ollamaInference w (S (List.length (photos ag))) with
      | Resolved a => Resolved a
      | Rejected e => Rejected (ollamaError e)
      end
    /\ Props.imagesSent (trace (dispatch w q) ag) = photos ag
    /\ List.length (Props.requests (trace (dispatch w q) ag))
       = (List.length (photos ag) + 2)%nat
    /\ result (mapIndexed (describe w) 0 (photos ag)) ag
       = Props.descriptions w (List.length (photos ag))
    /\ (forall index,
           (index < List.length (photos ag))%nat ->
           nth_error (Props.descriptions w (List.length (photos ag))) index
           = Some (match ollamaInference w (S index) with
                   | Resolved description =>
                       "Image " ++ Js.ofNat (index + 1) ++ ": " ++ description
                   | Rejected _ =>
                       "Image " ++ Js.ofNat (index + 1) ++ ": Could not analyze"
                   end))
    /\ (exists earlier,
           trace (dispatch w q) ag
           = (earlier
              ++ [Props.finalRequest
                    (Props.descriptions w (List.length (photos ag))) q])%list).
Proof.
  intros w q ag v Hmodel Hprobe. unfold result at 1, trace.
  rewrite dispatch_ollama by assumption. cbn [fst snd].
  destruct (ollama_probe_resolved w q ag v Hprobe) as (Hres & Himages & Hcount).
  split; [exact Hres|]. split; [exact Himages|]. split; [exact Hcount|].
  split; [apply mapIndexed_describe_result|]. split.
  - intros index Hindex. unfold Props.descriptions.
    rewrite nth_error_map, nth_error_seq.
    destruct (Nat.ltb_spec index (List.length (photos ag))) as [_|Hge]; [|lia].
    reflexivity.
  - destruct (ollama_final_request w q ag v Hprobe) as (earlier & Hearlier).
    exists (Dispatch ollama_moondream :: earlier).
    fold (trace (ollama w q) ag). rewrite Hearlier. reflexivity.
Qed.

Lemma ollama_image_failures_do_not_fail_query_witness :
  result (dispatch
            {| axiosPost := OpenAI.OtherFailure;
               ollamaInference :=
                 fun n => if Nat.eqb n 1 then Rejected NotAnError
                          else Resolved "A red bicycle.";
               groqRequest := Rejected NotAnError |}
            "what is this?")
         (after (addPhoto [Scenario.photo; Scenario.photo]) Scenario.local)
  = Resolved "A red bicycle."
  /\ result (mapIndexed
               (describe
                  {| axiosPost := OpenAI.OtherFailure;
                     ollamaInference :=
                       fun n => if Nat.eqb n 1 then Rejected NotAnError
                                else Resolved "A red bicycle.";
                     groqRequest := Rejected NotAnError |})
               0
               (photos (after (addPhoto [Scenario.photo; Scenario.photo])
                          Scenario.local)))
            (after (addPhoto [Scenario.photo; Scenario.photo]) Scenario.local)
     = ["Image 1: Could not analyze"; "Image 2: A red bicycle."].
Proof.
  split.
  - apply (proj1 (ollama_image_failures_do_not_fail_query
                    {| axiosPost := OpenAI.OtherFailure;
                       ollamaInference :=
                         fun n => if Nat.eqb n 1 then Rejected NotAnError
                                  else Resolved "A red bicycle.";
                       groqRequest := Rejected NotAnError |}
                    "what is this?"
                    (after (addPhoto [Scenario.photo; Scenario.photo]) Scenario.local)
                    "A red bicycle." eq_refl eq_refl)).
  - etransitivity.
    + apply (proj1 (proj2 (proj2 (proj2
               (ollama_image_failures_do_not_fail_query
                  {| axiosPost := OpenAI.OtherFailure;
                     ollamaInference :=
                       fun n => if Nat.eqb n 1 then Rejected NotAnError
                                else Resolved "A red bicycle.";
                     groqRequest := Rejected NotAnError |}
                  "what is this?"
                  (after (addPhoto [Scenario.photo; Scenario.photo]) Scenario.local)
                  "A red bicycle." eq_refl eq_refl))))).
    + reflexivity.
Defined.

(** X19.  The Groq backend never receives a photo: its request is built
    from the question and from the number of photos only, so two sessions
    holding as many photos send the same request, and the outcome is the
    reply to that single request. *)
Theorem groq_sees_only_photo_count :
  forall w q ag1 ag2,
    AgentState.selectedModel (state ag1) = groq_llama ->
    AgentState.selectedModel (state ag2) = groq_llama ->
    List.length (photos ag1) = List.length (photos ag2) ->
    trace (dispatch w q) ag1 = trace (dispatch w q) ag2
    /\ Props.imagesSent (trace (dispatch w q) ag1) = []
    /\ List.length (Props.requests (trace (dispatch w q) ag1)) = 1%nat
    /\ result (dispatch w q) ag1 = groqRequest w.
Proof.
  intros w q ag1 ag2 Hm1 Hm2 Hlen. unfold trace, result.
  rewrite !dispatch_groq by assumption. cbn [fst snd]. rewrite Hlen.
  now repeat split.
Qed.

Lemma groq_sees_only_photo_count_witness :
  trace (dispatch Scenario.world "what is this?")
    (after (setModel groq_llama) (after (addPhoto [Scenario.photo]) fresh))
  = trace (dispatch Scenario.world "what is this?")
      (after (setModel groq_llama) (after (addPhoto [[x01; x02]]) fresh)).
Proof.
  apply (groq_sees_only_photo_count Scenario.world "what is this?"
           (after (setModel groq_llama) (after (addPhoto [Scenario.photo]) fresh))
           (after (setModel groq_llama) (after (addPhoto [[x01; x02]]) fresh)));
    reflexivity.
Defined.

End BackendFacts.

(* ------------------------------------------------------------------ *)
(** * What the view shows *)

Section ViewFacts.

Import Agent View.

Local Open Scope string_scope.

Implicit Types (ag : agent) (w : World) (q : string) (st : AgentState.t).

(** X20.  Of the four blocks of the answer area -- the spinner, the error,
    the answer and the invitation to ask -- exactly one is shown in every
    state.  While loading it is the spinner: an earlier answer or error is
    hidden as long as a query is in flight. *)
Theorem exactly_one_block_is_shown :
  forall st,
    count_occ Bool.bool_dec (shown st) true = 1%nat
    /\ (AgentState.loading st = true -> shown st = [true; false; false; false]).
Proof.
  intros st. unfold shown, showsLoading, showsError, showsAnswer, showsPlaceholder.
  destruct (AgentState.loading st), (truthy (AgentState.error st)),
           (truthy (AgentState.answer st));
    split; try reflexivity; discriminate.
Qed.

Lemma exactly_one_block_is_shown_witness :
  shown (state Scenario.waiting) = [true; false; false; false].
Proof.
  apply (exactly_one_block_is_shown (state Scenario.waiting)). reflexivity.
Defined.

Lemma failureMessage_truthy model e :
  truthy (Some (failureMessage model e)) = true.
Proof.
  unfold failureMessage, truthy.
  destruct e as [message|]; [|reflexivity].
  destruct (Js.includes message "401" || Js.includes message "Invalid");
    [reflexivity|].
  destruct (Js.includes message "429"); [reflexivity|].
  destruct (Js.includes message "402"); [reflexivity|].
  destruct (Js.includes message "Ollama") eqn:Hollama.
  - destruct message; [discriminate Hollama|reflexivity].
  - destruct (Js.includes message "fetch" || Js.includes message "network");
      reflexivity.
Qed.

(** X21.  A query that fails always shows the error block, and nothing
    else: the message built for a failed backend is never empty, whatever
    was thrown, and neither is the message of the configuration check.  A
    query made without photos shows the answer block, with the advisory
    message. *)
Theorem failed_query_shows_error_block :
  forall keys w q ag,
    (photos ag <> [] ->
     forall e,
       result (dispatch w q) ag = Rejected e ->
       shown (state (after (answerLocked w q) ag)) = [false; true; false; false])
    /\ (configured (checkModelConfiguration keys (state ag)) = false ->
        AgentState.loading (state ag) = false ->
        shown (state (after (answer keys w q) ag)) = [false; true; false; false])
    /\ (photos ag = [] ->
        shown (state (after (answerLocked w q) ag)) = [false; false; true; false]).
Proof.
  intros keys w q ag. split; [|split].
  - intros Hphotos e He. unfold after.
    rewrite answerLocked_dispatch, He by assumption. cbn [fst snd state].
    unfold shown, showsLoading, showsError, showsAnswer, showsPlaceholder.
    unfold settled, failed.
    cbn [AgentState.loading AgentState.error AgentState.answer
         AgentState.setLoading AgentState.setAnswer AgentState.setError].
    rewrite failureMessage_truthy. reflexivity.
  - intros Hcfg Hload. unfold after.
    rewrite answer_unconfigured, answerSync_unconfigured by assumption.
    cbn [fst snd state].
    unfold shown, showsLoading, showsError, showsAnswer, showsPlaceholder.
    cbn [AgentState.loading AgentState.error AgentState.answer
         AgentState.setLoading AgentState.setAnswer AgentState.setError].
    rewrite Hload. unfold checkModelConfiguration in *.
    destruct (AgentState.selectedModel (state ag));
      try discriminate Hcfg;
      [destruct (missing (openai keys))|destruct (missing (groq keys))];
      try discriminate Hcfg; reflexivity.
  - intros Hphotos. unfold after. rewrite answerLocked_empty by assumption.
    reflexivity.
Qed.

Lemma failed_query_shows_error_block_witness :
  shown (state (after (answerLocked Scenario.offline "what is this?")
                  (after (addPhoto [Scenario.photo]) Scenario.local)))
  = [false; true; false; false].
Proof.
  apply (proj1 (failed_query_shows_error_block
                  Scenario.keys Scenario.offline "what is this?"
                  (after (addPhoto [Scenario.photo]) Scenario.local))
           ltac:(vm_compute; congruence)
           (JsError "Ollama is not running. Please start Ollama and ensure it's accessible at http://localhost:11434")).
  reflexivity.
Defined.

End ViewFacts.

(* ------------------------------------------------------------------ *)
(** * Listeners and the model selector *)

Section SubscriptionFacts.

Import Subscription.

Lemma unsubscribe_absent listener ls :
  ~ In listener ls -> unsubscribe listener ls = ls.
Proof.
  unfold unsubscribe. induction ls as [|l ls IH]; intros Hnot; [reflexivity|].
  cbn [filter].
  destruct (Nat.eqb_spec l listener) as [->|Hne].
  - exfalso. apply Hnot. now left.
  - cbn [negb]. rewrite IH; [reflexivity|]. intros Hin. apply Hnot. now right.
Qed.

Lemma unsubscribe_app listener ls1 ls2 :
  unsubscribe listener (ls1 ++ ls2)
  = unsubscribe listener ls1 ++ unsubscribe listener ls2.
Proof. unfold unsubscribe. apply filter_app. Qed.

Lemma unsubscribe_same listener ls :
  unsubscribe listener (listener :: ls) = unsubscribe listener ls.
Proof. unfold unsubscribe. cbn [filter]. now rewrite Nat.eqb_refl. Qed.

(** X22.  Detaching a listener removes it, and it only: the other listeners
    stay, in the order they registered (the listeners registered before it,
    then those registered after it).  Registering a new listener and
    detaching it gives back the list as it was. *)
Theorem unsubscribe_removes_that_listener_only :
  forall listener ls,
    ~ In listener (unsubscribe listener ls)
    /\ (forall other, other <> listener ->
                      (In other (unsubscribe listener ls) <-> In other ls))
    /\ (~ In listener ls ->
        unsubscribe listener (subscribe listener ls) = ls)
    /\ (forall before after,
           ls = before ++ listener :: after ->
           ~ In listener before ->
           ~ In listener after ->
           unsubscribe listener ls = before ++ after).
Proof.
  intros listener ls.
  assert (Hmiddle : forall before after,
             ls = before ++ listener :: after ->
             ~ In listener before ->
             ~ In listener after ->
             unsubscribe listener ls = before ++ after).
  { intros before after -> Hbefore Hafter.
    rewrite unsubscribe_app, unsubscribe_same.
    now rewrite !unsubscribe_absent by assumption. }
  unfold unsubscribe, subscribe.
  split; [|split; [|split; [|exact Hmiddle]]].
  - intros Hin. apply filter_In in Hin as [_ Hneq].
    now rewrite Nat.eqb_refl in Hneq.
  - intros other Hother. rewrite filter_In. split; [now intros [Hin _]|].
    intros Hin. split; [exact Hin|].
    now destruct (Nat.eqb_spec other listener).
  - intros Hnot. rewrite filter_app. cbn [filter].
    rewrite Nat.eqb_refl. cbn [negb]. rewrite app_nil_r.
    now apply unsubscribe_absent.
Qed.

Lemma unsubscribe_removes_that_listener_only_witness :
  unsubscribe 3%nat (subscribe 3%nat [1; 2]%nat) = [1; 2]%nat
  /\ unsubscribe 3%nat [1; 2; 3; 4; 5]%nat = [1; 2; 4; 5]%nat.
Proof.
  split.
  - apply (unsubscribe_removes_that_listener_only 3%nat [1; 2]%nat).
    simpl. intros [H|[H|H]]; [discriminate H|discriminate H|exact H].
  - apply (proj2 (proj2 (proj2
             (unsubscribe_removes_that_listener_only 3%nat [1; 2; 3; 4; 5]%nat)))
             [1; 2]%nat [4; 5]%nat).
    + reflexivity.
    + simpl. intros [H|[H|H]]; [discriminate H|discriminate H|exact H].
    + simpl. intros [H|[H|H]]; [discriminate H|discriminate H|exact H].
Defined.

End SubscriptionFacts.

Section ModelSelectorFacts.

Import ModelSelector.

(** X23.  Every model of [AIModel] has its entry in the table of the
    selector: the entry looked up for the selected model exists and is the
    one of that model, and exactly one button is highlighted. *)
Theorem selector_covers_every_model :
  forall selectedModel : AIModel,
    (exists entry,
        selectedModelInfo selectedModel = Some entry
        /\ id entry = selectedModel)
    /\ count_occ Bool.bool_dec (highlighted selectedModel) true = 1%nat
    /\ List.length (highlighted selectedModel) = 3%nat.
Proof.
  intros []; (split; [eexists; split; reflexivity|split; reflexivity]).
Qed.

End ModelSelectorFacts.

(* ------------------------------------------------------------------ *)
(** * The agent with and without model selection *)

Section EarlierFacts.

Import Agent.

Implicit Types (ag : agent) (keys : Keys) (w : World) (q : string).

(** X24.  With ['openai-vision'] selected and an OpenAI key that is not
    blank, [answer] does what the agent without model selection does on the
    same photos and the same response: the same outcome, the same photos,
    answer, loading flag and description, and an error exactly when the
    other sets one; only the text of the error differs. *)
Theorem openai_agent_agrees_with_earlier_agent :
  forall keys w q ag,
    AgentState.selectedModel (state ag) = openai_vision ->
    Props.blank (openai keys) = false ->
    result (answer keys w q) ag
    = fst (fst (Earlier.answerRun (axiosPost w) q
                  {| Earlier.photos := photos ag;
                     Earlier.state := Earlier.forget (state ag);
                     Earlier.stateCopy := Earlier.forget (stateCopy ag) |}))
    /\ photos (after (answer keys w q) ag)
       = Earlier.photos
           (snd (fst (Earlier.answerRun (axiosPost w) q
                        {| Earlier.photos := photos ag;
                           Earlier.state := Earlier.forget (state ag);
                           Earlier.stateCopy := Earlier.forget (stateCopy ag) |})))
    /\ Earlier.forget (state (after (answer keys w q) ag))
       = Earlier.blur
           (Earlier.state
              (snd (fst (Earlier.answerRun (axiosPost w) q
                           {| Earlier.photos := photos ag;
                              Earlier.state := Earlier.forget (state ag);
                              Earlier.stateCopy := Earlier.forget (stateCopy ag) |})))).
Proof.
  intros keys w q ag Hmodel Hblank.
  assert (Hcfg : configured (checkModelConfiguration keys (state ag)) = true).
  { unfold checkModelConfiguration. now rewrite Hmodel, missing_blank, Hblank. }
  unfold result, after.
  destruct (AgentState.loading (state ag)) eqn:Hload.
  - rewrite answer_loading by assumption.
    unfold Earlier.answerRun, Earlier.answerSync.
    cbn [Earlier.state Earlier.loading Earlier.forget]. rewrite Hload.
    cbn [fst snd Earlier.photos Earlier.state].
    repeat split. unfold Earlier.blur, Earlier.forget. cbn.
    now destruct (AgentState.error (state ag)).
  - rewrite answer_start by assumption. unfold after, trace.
    rewrite answerSync_start by assumption. cbn [fst snd].
    unfold Earlier.answerRun, Earlier.answerSync, Earlier.answerLocked, Earlier.notify.
    cbn [Earlier.state Earlier.loading Earlier.forget Earlier.photos]. rewrite Hload.
    cbn [Earlier.state Earlier.loading Earlier.photos].
    destruct (photos ag) as [|p ps] eqn:Hphotos.
    + rewrite answerLocked_empty by reflexivity.
      now repeat split.
    + rewrite answerLocked_dispatch by (cbn [photos]; discriminate).
      cbn [fst snd photos state List.length Nat.eqb].
      unfold result. rewrite dispatch_openai by exact Hmodel. cbn [fst].
      destruct (OpenAI.answerQuestionWithImages (axiosPost w)); now repeat split.
Qed.

Lemma openai_agent_agrees_with_earlier_agent_witness :
  photos (after (answer Scenario.keys Scenario.world "what is this?")
            (after (addPhoto [Scenario.photo]) fresh))
  = Earlier.photos
      (snd (fst (Earlier.answerRun (axiosPost Scenario.world) "what is this?"
                   {| Earlier.photos :=
                        photos (after (addPhoto [Scenario.photo]) fresh);
                      Earlier.state :=
                        Earlier.forget
                          (state (after (addPhoto [Scenario.photo]) fresh));
                      Earlier.stateCopy :=
                        Earlier.forget
                          (stateCopy (after (addPhoto [Scenario.photo]) fresh)) |}))).
Proof.
  apply (openai_agent_agrees_with_earlier_agent
           Scenario.keys Scenario.world "what is this?"
           (after (addPhoto [Scenario.photo]) fresh));
    reflexivity.
Defined.

(** X25.  In the agent without model selection there is no configuration
    check: a question asked while not loading always reaches the locked
    part, which ends not loading and leaves the photos as they are.
    Without photos the answer is the advisory message.  With photos, a
    request that resolves gives its content as the answer and no error, and
    a request that is rejected, whatever the reason, clears the answer and
    gives the same fixed error message. *)
Theorem earlier_agent_reports_one_failure_message :
  forall (post : OpenAI.AxiosResult) q (ag : Earlier.agent),
    Earlier.loading (Earlier.state ag) = false ->
    fst (fst (Earlier.answerRun post q ag)) = Queued
    /\ Earlier.loading (Earlier.state (snd (fst (Earlier.answerRun post q ag))))
       = false
    /\ Earlier.photos (snd (fst (Earlier.answerRun post q ag))) = Earlier.photos ag
    /\ (Earlier.photos ag = [] ->
        Earlier.answer (Earlier.state (snd (fst (Earlier.answerRun post q ag))))
        = Some "I don't see any photos yet. Please take some photos first and then ask your question."%string
        /\ Earlier.error (Earlier.state (snd (fst (Earlier.answerRun post q ag))))
           = None)
    /\ (Earlier.photos ag <> [] ->
        forall a,
          OpenAI.answerQuestionWithImages post = Resolved a ->
          Earlier.answer (Earlier.state (snd (fst (Earlier.answerRun post q ag))))
          = Some a
          /\ Earlier.error (Earlier.state (snd (fst (Earlier.answerRun post q ag))))
             = None)
    /\ (Earlier.photos ag <> [] ->
        forall reason,
          OpenAI.answerQuestionWithImages post = Rejected reason ->
          Earlier.answer (Earlier.state (snd (fst (Earlier.answerRun post q ag))))
          = None
          /\ Earlier.error (Earlier.state (snd (fst (Earlier.answerRun post q ag))))
             = Some "Failed to get response from AI. Please check your OpenAI API key and try again."%string).
Proof.
  intros post q ag Hload.
  unfold Earlier.answerRun, Earlier.answerSync, Earlier.answerLocked, Earlier.notify.
  rewrite Hload. cbn [Earlier.state Earlier.photos].
  destruct (Earlier.photos ag) as [|p ps] eqn:Hphotos.
  - cbn. split; [reflexivity|]. split; [reflexivity|]. split; [reflexivity|].
    split; [now split|]. split; intros Hne; now contradiction Hne.
  - cbn [List.length Nat.eqb].
    destruct (OpenAI.answerQuestionWithImages post) as [a|e]; cbn;
      (split; [reflexivity|]); (split; [reflexivity|]); (split; [reflexivity|]);
      (split; [discriminate|]); split; intros _ x Hx;
      first [discriminate Hx | injection Hx as <-; now split | now split].
Qed.

Lemma earlier_agent_reports_one_failure_message_witness :
  Earlier.error
    (Earlier.state
       (snd (fst (Earlier.answerRun (OpenAI.AxiosError (Some 429%Z)) "what is this?"
                    (fst (Earlier.addPhoto [Scenario.photo] Earlier.fresh))))))
  = Some "Failed to get response from AI. Please check your OpenAI API key and try again."%string.
Proof.
  apply (proj2 (proj2 (proj2 (proj2 (proj2
           (earlier_agent_reports_one_failure_message
              (OpenAI.AxiosError (Some 429%Z)) "what is this?"
              (fst (Earlier.addPhoto [Scenario.photo] Earlier.fresh)) eq_refl)))))
           ltac:(vm_compute; congruence)
           (JsError "OpenAI rate limit exceeded. Please try again later.")
           eq_refl).
Defined.

End EarlierFacts.
